(** * Confetti animation: configuration, parameter generation and pose evaluation

    A shallow embedding of the [ConfettiSkia] component (the Skia variant
    of the confetti benchmark) together with the properties its specification
    states.

    JavaScript numbers are modelled twice, each model serving the
    statements it fits:

    - [Ideal]: numbers are real numbers ([R]); [Math.min], [Math.max],
      [Math.pow], [Math.sin], [Math.cos] and [Math.PI] are [Rmin], [Rmax],
      [pow], [sin], [cos] and [PI].  The statements about the pose for
      positive phase durations live here.
    - [Binary64]: numbers are IEEE 754 binary64 values ([spec_float] with
      precision 53 and maximal exponent 1024), where every operation
      rounds and a division by zero yields an infinity or NaN.  The
      statements about phase durations equal to zero live here, and so do
      the inputs at which rounding separates the source from exact
      arithmetic.

    The source rounds after every operation, [Ideal] does not.  The
    statements over [Ideal] are therefore written in the order of
    operations of the source: a hypothesis such as [descendingDuration <=
    t - delay - ascendingDuration - hoveringDuration] is the test on the
    value the code computes, not on a rearranged sum; an equation relates
    expressions that the code evaluates through the same operations; and
    an inequality is one that rounding to nearest, which is monotone,
    preserves.  Where a property holds in exact arithmetic alone, it is
    refuted by an evaluation in [Binary64].

    Objects whose key set matters (the configuration passed by a caller
    and the object built from it by a spread) are association lists from
    property names to values. *)

From Stdlib Require Import Reals Lra Lia List String ZArith Bool.
From Stdlib Require Import Floats.SpecFloat.
Import ListNotations.

Set Warnings "-register-all".

(* ================================================================== *)
(** * Objects and the resolved configuration *)
(* ================================================================== *)

Module JsObject.

Open Scope string_scope.
Open Scope R_scope.

(** The values that occur in a [ConfettiSkiaConfig]: a number, a pair
    [[lo, hi]], an array of color strings, an array of image handles
    (what [require] returns), and a nested object. *)
Inductive value : Type :=
| VNum (x : R)
| VRange (lo hi : R)
| VColors (cs : list string)
| VImages (ims : list nat)
| VObject (props : list (string * value)).

(** An object: its own enumerable properties, in insertion order. *)
Definition object := list (string * value).

(** [o.k]: [None] stands for [undefined]. *)
Fixpoint get (k : string) (o : object) : option value :=
  match o with
  | [] => None
  | (k', v) :: o' => if String.eqb k k' then Some v else get k o'
  end.

(** [o[k] = v] on a fresh object under construction: an existing key
    keeps its position and takes the new value, a new key is appended. *)
Fixpoint set (k : string) (v : value) (o : object) : object :=
  match o with
  | [] => [(k, v)]
  | (k', v') :: o' =>
      if String.eqb k k' then (k', v) :: o' else (k', v') :: set k v o'
  end.

(** [{...src}] copied onto [dst]: every own property of [src], in order. *)
Fixpoint spread (src dst : object) : object :=
  match src with
  | [] => dst
  | (k, v) :: src' => spread src' (set k v dst)
  end.

(** [defaultConfig]. *)
Definition defaultConfig : object :=
  [ ("colors", VColors ["#22e39e"; "#ed4e4e"; "#fea134"; "#ff8fd8"; "#5c59f3"]);
    ("images", VImages [1%nat; 2%nat; 3%nat; 4%nat]);
    ("count", VNum 50);
    ("delayRange", VRange 0 0);
    ("xSpawnRange", VRange 0.4 0.6);
    ("ySpawnRange", VRange 0.5 0.5);
    ("ascendingDurationRange", VRange 500 600);
    ("ascendingXOffsetRange", VRange (-200) 200);
    ("hoveringDurationRange", VRange 200 200);
    ("descendingDurationRange", VRange 2000 6000) ].

(** [const resolvedConfig = {...defaultConfig, config};] in
    [ConfettiSkia]: the properties of [defaultConfig] are spread, then
    the shorthand property [config] (that is [config: config]) is set to
    the caller's object. *)
Definition resolvedConfig (config : object) : object :=
  set "config" (VObject config) (spread defaultConfig []).

(** What the specification describes: the caller's properties spread
    over the defaults, [{...defaultConfig, ...config}]. *)
Definition resolvedConfig_spec (config : object) : object :=
  spread config (spread defaultConfig []).

End JsObject.

(* ================================================================== *)
(** * The ideal (real-number) model *)
(* ================================================================== *)

Module Ideal.

Open Scope R_scope.

(** [ConfettiSkiaConfig]; a range [[lo, hi]] is a pair. *)
Record ConfettiSkiaConfig : Type := {
  colors : list string;
  images : list nat;
  count : R;
  delayRange : R * R;
  xSpawnRange : R * R;
  ySpawnRange : R * R;
  ascendingDurationRange : R * R;
  ascendingXOffsetRange : R * R;
  hoveringDurationRange : R * R;
  descendingDurationRange : R * R
}.

(** The object returned by [getAnimationPropsForConfetti].  [color] and
    [image] are [None] when [sample] returned [undefined]. *)
Record AnimationProps : Type := {
  delay : R;
  startX : R;
  startY : R;
  ascendingDuration : R;
  ascendingXOffset : R;
  ascendingYTarget : R;
  hoveringDuration : R;
  hoveringAmplitude : R;
  descendingDuration : R;
  descendingSpeedX : R;
  descendingSpeedY : R;
  descendingRandomFactor : R;
  rotationVelocity : R;
  scale : R;
  color : option string;
  image : option nat
}.

(** One entry of a [Transforms2d] array. *)
Inductive Transform2d : Type :=
| TranslateX (x : R)
| TranslateY (y : R)
| Rotate (r : R)
| Scale (s : R).

(** The value computed by the [style] closure of [Confetti]. *)
Record Style : Type := {
  transform : list Transform2d;
  opacity : R
}.

(** ** Easing and interpolation *)

Definition easeInOutCubic (x : R) : R :=
  if Rlt_dec x 0.5 then 4 * x * x * x else 1 - (-2 * x + 2) ^ 3 / 2.

Definition easeOutQuart (x : R) : R := 1 - (1 - x) ^ 4.

Definition fastInterpolate (x : R) (inputRange outputRange : R * R) : R :=
  let t :=
    Rmin (Rmax ((x - fst inputRange) / (snd inputRange - fst inputRange)) 0) 1 in
  fst outputRange + t * (snd outputRange - fst outputRange).

(** ** The body of the [style] closure, one definition per [const] *)

Section Evaluator.

Variable props : AnimationProps.
(** [time.current] *)
Variable time : R.

(* Ascending phase *)
Definition ascendingTime : R := Rmax (time - delay props) 0.
Definition ascendingPercent : R :=
  Rmin (ascendingTime / ascendingDuration props) 1.
Definition ascendingT : R := easeInOutCubic ascendingPercent.
Definition ascendingX : R := startX props + ascendingT * ascendingXOffset props.
Definition ascendingY : R :=
  startY props + ascendingT * (ascendingYTarget props - startY props).
Definition ascendingOpacity : R :=
  fastInterpolate ascendingPercent (0.3, 0.8) (0, 1).

(* Hovering phase *)
Definition hoveringTime : R :=
  Rmax (time - delay props - ascendingDuration props) 0.
Definition hoveringPercent : R :=
  Rmin (hoveringTime / hoveringDuration props) 1.
Definition hoveringT : R :=
  easeOutQuart hoveringPercent *
  fastInterpolate hoveringPercent (0.8, 1) (1, 0.7).
Definition hoveringY : R := - hoveringAmplitude props * hoveringT.

(* Descending phase *)
Definition descendingTime : R :=
  Rmax (time - delay props - ascendingDuration props - hoveringDuration props) 0.
Definition descendingPercent : R :=
  Rmin (descendingTime / descendingDuration props) 1.
Definition descendingSpeedFactor : R :=
  fastInterpolate descendingTime (0, 1000) (0.7, 1.0).
Definition descendingRotateAngle : R :=
  descendingRandomFactor props +
  (descendingTime / 1000) * (2 * PI) * descendingRandomFactor props.
Definition descendingX : R :=
  descendingTime * descendingSpeedX props + sin descendingRotateAngle * 10.
Definition descendingY : R :=
  descendingTime * descendingSpeedFactor * descendingSpeedY props +
  cos descendingRotateAngle * 10.
Definition descendingOpacity : R :=
  fastInterpolate descendingPercent (0.8, 1) (1, 0).

Definition rotate : R :=
  ((hoveringTime / 1000) * rotationVelocity props * PI) / 180.

Definition transform_ : list Transform2d :=
  [ TranslateX (ascendingX + descendingX);
    TranslateY (ascendingY + hoveringY + descendingY);
    Rotate rotate;
    Scale (scale props) ].

Definition style : Style :=
  {| transform := transform_;
     opacity := ascendingOpacity * descendingOpacity |}.

End Evaluator.

(** ** Reading a pose out of a [Style] *)

Definition translateX_of (s : Style) : option R :=
  match transform s with TranslateX x :: _ => Some x | _ => None end.
Definition translateY_of (s : Style) : option R :=
  match transform s with _ :: TranslateY y :: _ => Some y | _ => None end.
Definition rotate_of (s : Style) : option R :=
  match transform s with _ :: _ :: Rotate r :: _ => Some r | _ => None end.
Definition scale_of (s : Style) : option R :=
  match transform s with _ :: _ :: _ :: Scale k :: _ => Some k | _ => None end.

(** The end of the descending window of a particle. *)
Definition descendEnd (props : AnimationProps) : R :=
  delay props + ascendingDuration props + hoveringDuration props +
  descendingDuration props.

(** A particle whose three phase durations are positive. *)
Definition positiveDurations (props : AnimationProps) : Prop :=
  0 < ascendingDuration props /\ 0 < hoveringDuration props /\
  0 < descendingDuration props.

(** ** Parameter generation

    [random] and [sample] come from lodash, which draws from the host's
    random source.  The source of randomness is a state of an arbitrary
    type [Seed]; lodash's [random(lower, upper, floating)] and the index
    draw inside [sample] are the two operations on it. *)

(** Modelled from the spec: the error [InvalidConfig], which the
specification names for a malformed configuration.  The source declares
no error type and contains no [throw]. *)
Inductive GenerationError : Type := InvalidConfig.

(** How a call completes: with a value, or by throwing. *)

Inductive Completion (A : Type) : Type :=
| Returned (a : A)
| Thrown (e : GenerationError).
Arguments Returned {A} a.
Arguments Thrown {A} e.

Section Generator.

Variable Seed : Type.
(** lodash [random(lower, upper, floating)] *)
Variable random : R -> R -> bool -> Seed -> R * Seed.
(** the index lodash [sample] draws for an array of the given length *)
Variable randomIndex : nat -> Seed -> nat * Seed.

Definition Rand (A : Type) : Type := Seed -> A * Seed.

Definition ret {A : Type} (a : A) : Rand A := fun s => (a, s).

Definition bind {A B : Type} (m : Rand A) (k : A -> Rand B) : Rand B :=
  fun s => let (a, s') := m s in k a s'.

Notation "x <- m ;; k" := (bind m (fun x => k))
  (at level 61, m at next level, right associativity).

(** lodash [sample(array)]: [undefined] for an empty array, otherwise
    the element at the drawn index. *)
Definition sample {A : Type} (array : list A) : Rand (option A) :=
  match array with
  | [] => ret None
  | _ :: _ => i <- randomIndex (List.length array) ;; ret (nth_error array i)
  end.

Definition randomInRange (range : R * R) : Rand R :=
  random (fst range) (snd range) true.

(** The properties of the returned object literal are evaluated in
    the order they are written. *)
Definition getAnimationPropsForConfetti
    (containerWidth containerHeight : R) (config : ConfettiSkiaConfig)
  : Rand AnimationProps :=
  delay_ <- randomInRange (delayRange config) ;;
  startX_ <- randomInRange (xSpawnRange config) ;;
  startY_ <- randomInRange (ySpawnRange config) ;;
  ascendingDuration_ <- randomInRange (ascendingDurationRange config) ;;
  ascendingXOffset_ <- randomInRange (ascendingXOffsetRange config) ;;
  ascendingYTarget_ <- randomInRange (-0.3, 0.2) ;;
  hoveringDuration_ <- randomInRange (hoveringDurationRange config) ;;
  hoveringAmplitude_ <- randomInRange (2, 4) ;;
  descendingDuration_ <- randomInRange (descendingDurationRange config) ;;
  descendingSpeedX_ <- randomInRange (-30, 30) ;;
  descendingSpeedY_ <- randomInRange (150, 200) ;;
  descendingRandomFactor_ <- randomInRange (-1, 1) ;;
  rotationVelocity_ <- randomInRange (40, 360) ;;
  color_ <- sample (colors config) ;;
  image_ <- sample (images config) ;;
  ret {| delay := delay_;
         startX := startX_ * containerWidth;
         startY := startY_ * containerHeight;
         ascendingDuration := ascendingDuration_;
         ascendingXOffset := ascendingXOffset_;
         ascendingYTarget := ascendingYTarget_ * containerHeight;
         hoveringDuration := hoveringDuration_;
         hoveringAmplitude := hoveringAmplitude_;
         descendingDuration := descendingDuration_;
         descendingSpeedX := descendingSpeedX_ / 1000;
         descendingSpeedY := descendingSpeedY_ / 1000;
         descendingRandomFactor := descendingRandomFactor_;
         rotationVelocity := rotationVelocity_;
         scale := 0.9;
         color := color_;
         image := image_ |}.

(** A call of [getAnimationPropsForConfetti] as a completion.  Its
    body is the single [return] of an object literal: there is no
    [throw] and no test of the configuration, so the call returns. *)
Definition generate
    (containerWidth containerHeight : R) (config : ConfettiSkiaConfig)
    (s : Seed) : Completion AnimationProps :=
  Returned (fst (getAnimationPropsForConfetti containerWidth containerHeight config s)).

(** The particles of one [ConfettiSkia]: one [Confetti] per index of
    [range(resolvedConfig.count)], each calling
    [getAnimationPropsForConfetti] once when it mounts.  [n] is the
    number of indices. *)
Fixpoint confettis (n : nat)
    (containerWidth containerHeight : R) (config : ConfettiSkiaConfig)
  : Rand (list AnimationProps) :=
  match n with
  | O => ret []
  | S n' =>
      p <- getAnimationPropsForConfetti containerWidth containerHeight config ;;
      ps <- confettis n' containerWidth containerHeight config ;;
      ret (p :: ps)
  end.

End Generator.

(** [totalDuration] in [ConfettiSkia]. *)
Definition totalDuration (resolvedConfig : ConfettiSkiaConfig) : R :=
  snd (ascendingDurationRange resolvedConfig) +
  snd (hoveringDurationRange resolvedConfig) +
  snd (descendingDurationRange resolvedConfig).

(** ** The looped time *)

(** The integer part of a number, rounded towards zero. *)
Definition truncate (x : R) : Z :=
  if Rle_dec 0 x then Int_part x else (- Int_part (- x))%Z.

(** [a % b]: the remainder of the division whose quotient is truncated
towards zero, so that the result has the sign of [a]. *)
Definition remainder (a b : R) : R := a - b * IZR (truncate (a / b)).

(** [time] in [ConfettiSkia]: [clock.current % totalDuration]. *)
Definition time (clock : R) (resolvedConfig : ConfettiSkiaConfig) : R :=
  remainder clock (totalDuration resolvedConfig).

(** An index draw that stays below the length it is given. *)
Definition indexWithinBounds {Seed : Type}
    (randomIndex : nat -> Seed -> nat * Seed) : Prop :=
  forall (n : nat) (s : Seed), (0 < n)%nat -> (fst (randomIndex n s) < n)%nat.

(** Every range of a configuration has its bounds in order. *)
Definition validRanges (config : ConfettiSkiaConfig) : Prop :=
  fst (delayRange config) <= snd (delayRange config) /\
  fst (xSpawnRange config) <= snd (xSpawnRange config) /\
  fst (ySpawnRange config) <= snd (ySpawnRange config) /\
  fst (ascendingDurationRange config) <= snd (ascendingDurationRange config) /\
  fst (ascendingXOffsetRange config) <= snd (ascendingXOffsetRange config) /\
  fst (hoveringDurationRange config) <= snd (hoveringDurationRange config) /\
  fst (descendingDurationRange config) <= snd (descendingDurationRange config).

(** A random source that stays within ordered bounds. *)
Definition randomWithinBounds {Seed : Type}
    (random : R -> R -> bool -> Seed -> R * Seed) : Prop :=
  forall lower upper floating s,
    lower <= upper ->
    lower <= fst (random lower upper floating s) <= upper.

(** The configuration an object denotes, when every property is there
    with the shape [ConfettiSkiaConfig] gives it. *)
Definition readConfig (o : JsObject.object) : option ConfettiSkiaConfig :=
  match JsObject.get "colors" o, JsObject.get "images" o,
        JsObject.get "count" o, JsObject.get "delayRange" o,
        JsObject.get "xSpawnRange" o, JsObject.get "ySpawnRange" o,
        JsObject.get "ascendingDurationRange" o,
        JsObject.get "ascendingXOffsetRange" o,
        JsObject.get "hoveringDurationRange" o,
        JsObject.get "descendingDurationRange" o with
  | Some (JsObject.VColors cs), Some (JsObject.VImages ims),
    Some (JsObject.VNum n), Some (JsObject.VRange d0 d1),
    Some (JsObject.VRange x0 x1), Some (JsObject.VRange y0 y1),
    Some (JsObject.VRange a0 a1), Some (JsObject.VRange o0 o1),
    Some (JsObject.VRange h0 h1), Some (JsObject.VRange e0 e1) =>
      Some {| colors := cs; images := ims; count := n;
              delayRange := (d0, d1); xSpawnRange := (x0, x1);
              ySpawnRange := (y0, y1);
              ascendingDurationRange := (a0, a1);
              ascendingXOffsetRange := (o0, o1);
              hoveringDurationRange := (h0, h1);
              descendingDurationRange := (e0, e1) |}
  | _, _, _, _, _, _, _, _, _, _ => None
  end.

(** [defaultConfig] as a typed configuration. *)
Definition defaultConfig : ConfettiSkiaConfig :=
  {| colors := ["#22e39e"; "#ed4e4e"; "#fea134"; "#ff8fd8"; "#5c59f3"]%string;
     images := [1%nat; 2%nat; 3%nat; 4%nat];
     count := 50;
     delayRange := (0, 0);
     xSpawnRange := (0.4, 0.6);
     ySpawnRange := (0.5, 0.5);
     ascendingDurationRange := (500, 600);
     ascendingXOffsetRange := (-200, 200);
     hoveringDurationRange := (200, 200);
     descendingDurationRange := (2000, 6000) |}.

(** ** Concrete inputs *)

(** The particle of the end-to-end scenario (durations 500, 200 and 2000,
no delay, start at the origin, ascend to x-offset 100 and y-target -50),
for a given [descendingRandomFactor]; the other properties are values
[getAnimationPropsForConfetti] can draw. *)
Definition scenarioParticle (randomFactor : R) : AnimationProps :=
  {| delay := 0;
     startX := 0;
     startY := 0;
     ascendingDuration := 500;
     ascendingXOffset := 100;
     ascendingYTarget := -50;
     hoveringDuration := 200;
     hoveringAmplitude := 3;
     descendingDuration := 2000;
     descendingSpeedX := 30 / 1000;
     descendingSpeedY := 150 / 1000;
     descendingRandomFactor := randomFactor;
     rotationVelocity := 180;
     scale := 0.9;
     color := Some "#22e39e"%string;
     image := Some 1%nat |}.

(** A configuration with a reversed range and two empty palettes. *)
Definition malformedConfig : ConfettiSkiaConfig :=
  {| colors := [];
     images := [];
     count := 50;
     delayRange := (0, 0);
     xSpawnRange := (0.4, 0.6);
     ySpawnRange := (0.5, 0.5);
     ascendingDurationRange := (600, 500);
     ascendingXOffsetRange := (-200, 200);
     hoveringDurationRange := (200, 200);
     descendingDurationRange := (2000, 6000) |}.

(** Some range is reversed, or a palette is empty while particles are
asked for. *)
Definition invalidConfig (config : ConfettiSkiaConfig) : Prop :=
  snd (delayRange config) < fst (delayRange config) \/
  snd (xSpawnRange config) < fst (xSpawnRange config) \/
  snd (ySpawnRange config) < fst (ySpawnRange config) \/
  snd (ascendingDurationRange config) < fst (ascendingDurationRange config) \/
  snd (ascendingXOffsetRange config) < fst (ascendingXOffsetRange config) \/
  snd (hoveringDurationRange config) < fst (hoveringDurationRange config) \/
  snd (descendingDurationRange config) < fst (descendingDurationRange config) \/
  ((colors config = [] \/ images config = []) /\ 0 < count config).

(** A random source without state that returns the lower bound, and an
index draw that returns the first index. *)
Definition lowestRandom (lower upper : R) (floating : bool) (s : unit) : R * unit :=
  (lower, s).

Definition firstIndex (n : nat) (s : unit) : nat * unit := (0%nat, s).

End Ideal.

(* ================================================================== *)
(** * The binary64 model of the phase fractions and the opacity *)
(* ================================================================== *)

Module Binary64.

(** A JavaScript number: an IEEE 754 binary64 value. *)
Definition number : Type := spec_float.

Definition prec : Z := 53.
Definition emax : Z := 1024.

Definition add : number -> number -> number := SFadd prec emax.
Definition sub : number -> number -> number := SFsub prec emax.
Definition mul : number -> number -> number := SFmul prec emax.
Definition div : number -> number -> number := SFdiv prec emax.

Definition NaN : number := S754_nan.
Definition Infinity : number := S754_infinity false.

(** The number an integer literal denotes. *)
Definition ofZ (z : Z) : number := binary_normalize prec emax z 0 false.

(** The number a decimal literal [n/d] (such as [0.3 = 3/10]) denotes:
    the binary64 value nearest to the quotient. *)
Definition decimal (n d : Z) : number := div (ofZ n) (ofZ d).

(** [Math.max] and [Math.min] of two numbers: NaN when either is NaN;
    [+0] is larger than [-0]. *)
Definition Math_max (x y : number) : number :=
  match SFcompare x y with
  | None => NaN
  | Some Lt => y
  | Some Gt => x
  | Some Eq => match x with S754_zero true => y | _ => x end
  end.

Definition Math_min (x y : number) : number :=
  match SFcompare x y with
  | None => NaN
  | Some Lt => x
  | Some Gt => y
  | Some Eq => match x with S754_zero false => y | _ => x end
  end.

Definition isNaN (x : number) : bool :=
  match x with S754_nan => true | _ => false end.

(** [isFinite]: neither NaN nor an infinity. *)
Definition isFinite (x : number) : bool :=
  match x with S754_zero _ | S754_finite _ _ _ => true | _ => false end.

(** The properties of a particle that the fractions and the opacity
    read. *)
Record AnimationProps : Type := {
  delay : number;
  ascendingDuration : number;
  hoveringDuration : number;
  descendingDuration : number
}.

Definition fastInterpolate (x : number) (inputRange outputRange : number * number)
  : number :=
  let t :=
    Math_min
      (Math_max (div (sub x (fst inputRange)) (sub (snd inputRange) (fst inputRange)))
                (ofZ 0))
      (ofZ 1) in
  add (fst outputRange) (mul t (sub (snd outputRange) (fst outputRange))).

Section Evaluator.

Variable props : AnimationProps.
(** [time.current] *)
Variable time : number.

Definition ascendingTime : number :=
  Math_max (sub time (delay props)) (ofZ 0).
Definition ascendingPercent : number :=
  Math_min (div ascendingTime (ascendingDuration props)) (ofZ 1).
Definition ascendingOpacity : number :=
  fastInterpolate ascendingPercent (decimal 3 10, decimal 8 10) (ofZ 0, ofZ 1).

Definition hoveringTime : number :=
  Math_max (sub (sub time (delay props)) (ascendingDuration props)) (ofZ 0).
Definition hoveringPercent : number :=
  Math_min (div hoveringTime (hoveringDuration props)) (ofZ 1).

Definition descendingTime : number :=
  Math_max
    (sub (sub (sub time (delay props)) (ascendingDuration props))
         (hoveringDuration props))
    (ofZ 0).
Definition descendingPercent : number :=
  Math_min (div descendingTime (descendingDuration props)) (ofZ 1).
Definition descendingOpacity : number :=
  fastInterpolate descendingPercent (decimal 8 10, ofZ 1) (ofZ 1, ofZ 0).

(** The [opacity] property of the returned style. *)
Definition opacity : number := mul ascendingOpacity descendingOpacity.

End Evaluator.

(** The sign a number carries, when it is not NaN. *)
Definition hasSign (sx : bool) (x : number) : Prop :=
  match x with
  | S754_zero s | S754_infinity s | S754_finite s _ _ => s = sx
  | S754_nan => False
  end.

(** A finite number between 0 and 1. *)
Definition inUnitInterval (x : number) : Prop :=
  isFinite x = true /\ SFleb (ofZ 0) x = true /\ SFleb x (ofZ 1) = true.

(** A finite number above 0. *)
Definition positiveFinite (x : number) : Prop :=
  isFinite x = true /\ SFltb (ofZ 0) x = true.

(** The looped time and the timing properties of a particle are finite
numbers. *)
Definition finiteTiming (props : AnimationProps) (time : number) : Prop :=
  isFinite time = true
  /\ isFinite (delay props) = true
  /\ isFinite (ascendingDuration props) = true
  /\ isFinite (hoveringDuration props) = true
  /\ isFinite (descendingDuration props) = true.

(** ** Concrete inputs *)


(** A particle whose ascending phase has duration 0. *)
Definition instantAscent : AnimationProps :=
  {| delay := ofZ 0;
     ascendingDuration := ofZ 0;
     hoveringDuration := ofZ 200;
     descendingDuration := ofZ 2000 |}.

End Binary64.

(* ================================================================== *)
(** * Properties of the ideal model *)
(* ================================================================== *)

Module IdealFacts.

Import Ideal.
Open Scope R_scope.

(** ** Clamping *)

Ltac clamp_cases :=
  unfold Rmin, Rmax in *; repeat destruct (Rle_dec _ _); try lra.

Lemma clamp01_range (u : R) : 0 <= Rmin (Rmax u 0) 1 <= 1.
Proof. clamp_cases. Qed.

Lemma clamp01_low (u : R) : u <= 0 -> Rmin (Rmax u 0) 1 = 0.
Proof. intros Hu. clamp_cases. Qed.

Lemma clamp01_high (u : R) : 1 <= u -> Rmin (Rmax u 0) 1 = 1.
Proof. intros Hu. clamp_cases. Qed.

Lemma clamp01_id (u : R) : 0 <= u <= 1 -> Rmin (Rmax u 0) 1 = u.
Proof. intros Hu. clamp_cases. Qed.

(** ** Quotients by a positive number *)

Lemma quot_nonneg (x d : R) : 0 < d -> 0 <= x -> 0 <= x / d.
Proof.
  intros Hd Hx. unfold Rdiv.
  apply Rmult_le_pos; [exact Hx | left; apply Rinv_0_lt_compat; exact Hd].
Qed.

Lemma quot_nonpos (x d : R) : 0 < d -> x <= 0 -> x / d <= 0.
Proof.
  intros Hd Hx. unfold Rdiv.
  pose proof (Rinv_0_lt_compat d Hd) as Hi. nra.
Qed.

Lemma quot_ge_1 (x d : R) : 0 < d -> d <= x -> 1 <= x / d.
Proof.
  intros Hd Hx. unfold Rdiv.
  pose proof (Rinv_0_lt_compat d Hd) as Hi.
  assert (Hone : d * / d = 1) by (apply Rinv_r; lra).
  nra.
Qed.

Lemma quot_le_1 (x d : R) : 0 < d -> x <= d -> x / d <= 1.
Proof.
  intros Hd Hx. unfold Rdiv.
  pose proof (Rinv_0_lt_compat d Hd) as Hi.
  assert (Hone : d * / d = 1) by (apply Rinv_r; lra).
  nra.
Qed.

(** ** [fastInterpolate] *)

Lemma fastInterpolate_between (x a b c d : R) :
  Rmin c d <= fastInterpolate x (a, b) (c, d) <= Rmax c d.
Proof.
  unfold fastInterpolate; cbn [fst snd].
  pose proof (clamp01_range ((x - a) / (b - a))) as Ht.
  set (t := Rmin (Rmax ((x - a) / (b - a)) 0) 1) in *.
  unfold Rmin, Rmax; destruct (Rle_dec c d); nra.
Qed.

Lemma fastInterpolate_low (x a b c d : R) :
  a < b -> x <= a -> fastInterpolate x (a, b) (c, d) = c.
Proof.
  intros Hab Hx. unfold fastInterpolate; cbn [fst snd].
  rewrite clamp01_low; [ring | apply quot_nonpos; lra].
Qed.

Lemma fastInterpolate_high (x a b c d : R) :
  a < b -> b <= x -> fastInterpolate x (a, b) (c, d) = d.
Proof.
  intros Hab Hx. unfold fastInterpolate; cbn [fst snd].
  rewrite clamp01_high; [ring | apply quot_ge_1; lra].
Qed.

Lemma fastInterpolate_inside (x a b c d : R) :
  a < b -> a <= x <= b ->
  fastInterpolate x (a, b) (c, d) = c + (x - a) / (b - a) * (d - c).
Proof.
  intros Hab Hx. unfold fastInterpolate; cbn [fst snd].
  rewrite clamp01_id; [reflexivity | ].
  split; [apply quot_nonneg | apply quot_le_1]; lra.
Qed.

(** ** The phase fractions *)

Section Fractions.

Variable props : AnimationProps.
Hypothesis durations : positiveDurations props.

Lemma ascendingPercent_range (t : R) : 0 <= ascendingPercent props t <= 1.
Proof.
  destruct durations as (Ha & _).
  unfold ascendingPercent, ascendingTime.
  assert (0 <= Rmax (t - delay props) 0 / ascendingDuration props)
    by (apply quot_nonneg; [exact Ha | apply Rmax_r]).
  clamp_cases.
Qed.

Lemma descendingPercent_range (t : R) : 0 <= descendingPercent props t <= 1.
Proof.
  destruct durations as (_ & _ & Hd).
  unfold descendingPercent, descendingTime.
  match goal with |- context [Rmax ?u 0 / _] =>
    assert (0 <= Rmax u 0 / descendingDuration props)
      by (apply quot_nonneg; [exact Hd | apply Rmax_r])
  end.
  clamp_cases.
Qed.

Lemma ascendingPercent_before (t : R) :
  t <= delay props -> ascendingPercent props t = 0.
Proof.
  intros Ht. unfold ascendingPercent, ascendingTime.
  rewrite Rmax_right by lra.
  unfold Rdiv; rewrite Rmult_0_l. apply Rmin_left; lra.
Qed.

Lemma ascendingPercent_after (t : R) :
  delay props + ascendingDuration props <= t -> ascendingPercent props t = 1.
Proof.
  destruct durations as (Ha & _). intros Ht.
  unfold ascendingPercent, ascendingTime.
  rewrite Rmax_left by lra.
  apply Rmin_right, quot_ge_1; lra.
Qed.

Lemma hoveringPercent_after (t : R) :
  delay props + ascendingDuration props + hoveringDuration props <= t ->
  hoveringPercent props t = 1.
Proof.
  destruct durations as (_ & Hh & _). intros Ht.
  unfold hoveringPercent, hoveringTime.
  rewrite Rmax_left by lra.
  apply Rmin_right, quot_ge_1; lra.
Qed.

Lemma descendingTime_after (t : R) :
  delay props + ascendingDuration props + hoveringDuration props <= t ->
  descendingTime props t =
  t - delay props - ascendingDuration props - hoveringDuration props.
Proof. intros Ht. unfold descendingTime. apply Rmax_left; lra. Qed.


Lemma ascendingOpacity_range (t : R) : 0 <= ascendingOpacity props t <= 1.
Proof.
  unfold ascendingOpacity.
  pose proof (fastInterpolate_between (ascendingPercent props t) 0.3 0.8 0 1) as H.
  rewrite Rmin_left, Rmax_right in H by lra. exact H.
Qed.

Lemma descendingOpacity_range (t : R) : 0 <= descendingOpacity props t <= 1.
Proof.
  unfold descendingOpacity.
  pose proof (fastInterpolate_between (descendingPercent props t) 0.8 1 1 0) as H.
  rewrite Rmin_right, Rmax_left in H by lra. exact H.
Qed.



End Fractions.

End IdealFacts.

(* ================================================================== *)
(** * The claims about interpolation and opacity *)
(* ================================================================== *)

Module OpacityClaims.

Import Ideal IdealFacts.
Open Scope R_scope.




(** C10. For a particle with positive phase durations and a looped time
[t >= 0], the ascending and the descending opacity contributions each lie
in [[0, 1]], the opacity of the style is their product, and it lies in
[[0, 1]]. *)
Theorem opacity_in_unit_interval :
  forall (props : AnimationProps) (t : R),
    positiveDurations props ->
    0 <= t ->
    0 <= ascendingOpacity props t <= 1
    /\ 0 <= descendingOpacity props t <= 1
    /\ opacity (style props t) =
       ascendingOpacity props t * descendingOpacity props t
    /\ 0 <= opacity (style props t) <= 1.
Proof.
  intros props t Hpos _.
  pose proof (ascendingOpacity_range props t) as Ha.
  pose proof (descendingOpacity_range props t) as Hd.
  cbn [style opacity].
  repeat split; try tauto; nra.
Qed.

Lemma opacity_in_unit_interval_witness :
  0 <= opacity (style (scenarioParticle 0) 250) <= 1.
Proof.
  assert (Hpos : positiveDurations (scenarioParticle 0))
    by (unfold positiveDurations; cbn; lra).
  assert (Ht : 0 <= 250) by lra.
  exact (proj2 (proj2 (proj2
    (opacity_in_unit_interval (scenarioParticle 0) 250 Hpos Ht)))).
Defined.




End OpacityClaims.

(* ================================================================== *)
(** * The claims about the transform *)
(* ================================================================== *)

Module PoseClaims.

Import Ideal IdealFacts.
Open Scope R_scope.

Lemma easeInOutCubic_half : easeInOutCubic 0.5 = 0.5.
Proof.
  unfold easeInOutCubic. destruct (Rlt_dec 0.5 0.5) as [H | H]; [lra | ].
  simpl. lra.
Qed.

Lemma one_lt_PI : 1 < PI.
Proof. pose proof PI2_1. lra. Qed.

Lemma sin_1_pos : 0 < sin 1.
Proof. apply sin_gt_0; [lra | exact one_lt_PI]. Qed.

Lemma hoveringTime_after (props : AnimationProps) (t : R) :
  delay props + ascendingDuration props <= t ->
  hoveringTime props t = t - delay props - ascendingDuration props.
Proof. intros Ht. unfold hoveringTime. apply Rmax_left; lra. Qed.

Lemma hoveringTime_before (props : AnimationProps) (t : R) :
  t <= delay props + ascendingDuration props -> hoveringTime props t = 0.
Proof. intros Ht. unfold hoveringTime. apply Rmax_right; lra. Qed.

(** C8. The rotation entry of the transform is the time elapsed since the
start of the hovering window, [max(t - delay - ascendingDuration, 0)], in
seconds, times [rotationVelocity] times [PI], divided by 180, in the
order in which the source multiplies and divides.  The elapsed time is
not bounded by [hoveringDuration]: at every time at which
[t - delay - ascendingDuration] is not negative, however late, the
rotation is [(t - delay - ascendingDuration) / 1000 * rotationVelocity *
PI / 180], through the hovering and the descending phase alike; it is 0
while that difference is not positive; it does not depend on the hovering
or the descending duration; and for a non-negative rotation velocity it
never decreases with time. *)
Theorem rotate_follows_hoveringTime :
  forall (props : AnimationProps) (t : R),
    rotate_of (style props t) =
      Some (Rmax (t - delay props - ascendingDuration props) 0 / 1000
            * rotationVelocity props * PI / 180)
    /\ (t - delay props - ascendingDuration props <= 0 -> rotate props t = 0)
    /\ (0 <= t - delay props - ascendingDuration props ->
        rotate props t =
          (t - delay props - ascendingDuration props) / 1000
          * rotationVelocity props * PI / 180)
    /\ (forall props' : AnimationProps,
          delay props' = delay props ->
          ascendingDuration props' = ascendingDuration props ->
          rotationVelocity props' = rotationVelocity props ->
          rotate props' t = rotate props t)
    /\ (forall t' : R,
          0 <= rotationVelocity props ->
          t <= t' ->
          rotate props t <= rotate props t').
Proof.
  intros props t. split; [ | split; [ | split; [ | split]]].
  - reflexivity.
  - intros Ht. unfold rotate, hoveringTime. rewrite Rmax_right by exact Ht. field.
  - intros Ht. unfold rotate, hoveringTime. rewrite Rmax_left by exact Ht.
    reflexivity.
  - intros props' Hd Ha Hv. unfold rotate, hoveringTime.
    rewrite Hd, Ha, Hv. reflexivity.
  - intros t' Hv Htt'. unfold rotate, hoveringTime.
    assert (Hm : Rmax (t - delay props - ascendingDuration props) 0
                 <= Rmax (t' - delay props - ascendingDuration props) 0).
    { apply Rmax_lub; [ | apply Rmax_r].
      eapply Rle_trans; [ | apply Rmax_l]. lra. }
    pose proof PI_RGT_0 as Hpi.
    set (h := Rmax (t - delay props - ascendingDuration props) 0) in *.
    set (h' := Rmax (t' - delay props - ascendingDuration props) 0) in *.
    clearbody h h'.
    assert (H1 : h / 1000 * rotationVelocity props
                 <= h' / 1000 * rotationVelocity props)
      by (apply Rmult_le_compat_r; lra).
    assert (H2 : h / 1000 * rotationVelocity props * PI
                 <= h' / 1000 * rotationVelocity props * PI)
      by (apply Rmult_le_compat_r; lra).
    lra.
Qed.

Lemma rotate_follows_hoveringTime_witness :
  rotate (scenarioParticle 0) 2700 =
    (2700 - delay (scenarioParticle 0) - ascendingDuration (scenarioParticle 0))
    / 1000 * rotationVelocity (scenarioParticle 0) * PI / 180
  /\ rotate (scenarioParticle 0) 600 <= rotate (scenarioParticle 0) 2700.
Proof.
  destruct (rotate_follows_hoveringTime (scenarioParticle 0) 2700)
    as (_ & _ & Hformula & _ & _).
  destruct (rotate_follows_hoveringTime (scenarioParticle 0) 600)
    as (_ & _ & _ & _ & Hmono).
  split.
  - apply Hformula. cbn; lra.
  - apply Hmono; cbn; lra.
Defined.

End PoseClaims.

(* ================================================================== *)
(** * The end-to-end scenario *)
(* ================================================================== *)

Module ScenarioClaims.

Import Ideal IdealFacts PoseClaims.
Open Scope R_scope.

(** The scenario at [t = 250], for any particle with the stated
properties: the fraction of the ascending phase is one half, and the
descending phase has not started. *)
Section Scenario.

Variable props : AnimationProps.
Hypothesis Hdelay : delay props = 0.
Hypothesis HstartX : startX props = 0.
Hypothesis HascendingXOffset : ascendingXOffset props = 100.
Hypothesis HascendingDuration : ascendingDuration props = 500.
Hypothesis HhoveringDuration : hoveringDuration props = 200.
Hypothesis HdescendingDuration : descendingDuration props = 2000.

Lemma scenario_ascendingPercent : ascendingPercent props 250 = 0.5.
Proof.
  unfold ascendingPercent, ascendingTime.
  rewrite Hdelay, HascendingDuration.
  rewrite Rmax_left by lra.
  replace ((250 - 0) / 500) with 0.5 by lra.
  apply Rmin_left. lra.
Qed.

Lemma scenario_descendingTime : descendingTime props 250 = 0.
Proof.
  unfold descendingTime.
  rewrite Hdelay, HascendingDuration, HhoveringDuration.
  apply Rmax_right. lra.
Qed.

Lemma scenario_translateX :
  translateX_of (style props 250) =
  Some (100 * easeInOutCubic 0.5 + 10 * sin (descendingRandomFactor props)).
Proof.
  cbn. f_equal.
  unfold ascendingX, ascendingT, descendingX, descendingRotateAngle.
  rewrite scenario_ascendingPercent, scenario_descendingTime.
  rewrite HstartX, HascendingXOffset.
  replace (descendingRandomFactor props +
           0 / 1000 * (2 * PI) * descendingRandomFactor props)
    with (descendingRandomFactor props) by field.
  ring.
Qed.

Lemma scenario_opacity : opacity (style props 250) = 0.4.
Proof.
  cbn [style opacity]. unfold ascendingOpacity, descendingOpacity.
  rewrite scenario_ascendingPercent.
  unfold descendingPercent.
  rewrite scenario_descendingTime, HdescendingDuration.
  replace (0 / 2000) with 0 by lra.
  rewrite (Rmin_left 0 1) by lra.
  rewrite (fastInterpolate_low 0 0.8 1 1 0) by lra.
  rewrite fastInterpolate_inside by lra.
  lra.
Qed.

End Scenario.

(** C3, as the claim states it, fails: a particle of the scenario whose
[descendingRandomFactor] is 1 has, at [t = 250], a translation along x
of [50 + 10 * sin 1], which is more than 50. *)
Lemma scenario_translateX_not_50 :
  delay (scenarioParticle 1) = 0
  /\ startX (scenarioParticle 1) = 0
  /\ startY (scenarioParticle 1) = 0
  /\ ascendingXOffset (scenarioParticle 1) = 100
  /\ ascendingYTarget (scenarioParticle 1) = -50
  /\ ascendingDuration (scenarioParticle 1) = 500
  /\ hoveringDuration (scenarioParticle 1) = 200
  /\ descendingDuration (scenarioParticle 1) = 2000
  /\ translateX_of (style (scenarioParticle 1) 250) <> Some 50.
Proof.
  repeat split.
  rewrite (scenario_translateX (scenarioParticle 1))
    by reflexivity.
  rewrite easeInOutCubic_half. cbn [scenarioParticle descendingRandomFactor].
  intros H. injection H as H. pose proof sin_1_pos. lra.
Qed.

(** C3, amended. In the scenario (durations 500, 200 and 2000, no delay,
start at the origin, x-offset 100, y-target -50), at [t = 250] the
translation along x is [100 * easeInOutCubic 0.5] plus the sway of the
descending contribution, [10 * sin descendingRandomFactor]; it is 50 when
[descendingRandomFactor] is 0.  The opacity is 0.4. *)
Theorem scenario_at_250 :
  forall props : AnimationProps,
    delay props = 0 ->
    startX props = 0 ->
    startY props = 0 ->
    ascendingXOffset props = 100 ->
    ascendingYTarget props = -50 ->
    ascendingDuration props = 500 ->
    hoveringDuration props = 200 ->
    descendingDuration props = 2000 ->
    translateX_of (style props 250) =
      Some (100 * easeInOutCubic 0.5 + 10 * sin (descendingRandomFactor props))
    /\ 100 * easeInOutCubic 0.5 = 50
    /\ (descendingRandomFactor props = 0 ->
        translateX_of (style props 250) = Some 50)
    /\ opacity (style props 250) = (0.5 - 0.3) / 0.5
    /\ opacity (style props 250) = 0.4.
Proof.
  intros props Hd Hx Hy Ho Hyt Ha Hh Hde.
  pose proof (scenario_translateX props Hd Hx Ho Ha Hh) as HX.
  pose proof (scenario_opacity props Hd Ha Hh Hde) as HO.
  repeat split.
  - exact HX.
  - rewrite easeInOutCubic_half. lra.
  - intros H0. rewrite HX, H0, sin_0, easeInOutCubic_half. f_equal. lra.
  - rewrite HO. lra.
  - exact HO.
Qed.

Lemma scenario_at_250_witness :
  translateX_of (style (scenarioParticle 0) 250) = Some 50
  /\ opacity (style (scenarioParticle 0) 250) = 0.4.
Proof.
  destruct (scenario_at_250 (scenarioParticle 0)
              eq_refl eq_refl eq_refl eq_refl eq_refl eq_refl eq_refl eq_refl)
    as (_ & _ & H50 & _ & Hop).
  split; [apply H50; reflexivity | exact Hop].
Defined.

End ScenarioClaims.

(* ================================================================== *)
(** * The claims about the configuration and the generator *)
(* ================================================================== *)

Module GeneratorClaims.

Import Ideal.
Open Scope R_scope.

(** Runs every draw of a generator call, keeping what is known of each
drawn number. *)
Ltac run_draws Hrandom :=
  repeat match goal with
    | |- context [?random ?lower ?upper true ?s] =>
        let x := fresh "x" in
        let s' := fresh "s" in
        let Hx := fresh "Hx" in
        pose proof (Hrandom lower upper true s) as Hx;
        destruct (random lower upper true s) as [x s'];
        cbn [fst snd] in Hx
    end.

Ltac run_samples :=
  repeat match goal with
    | |- context [sample _ _ ?l ?s] =>
        let o := fresh "o" in
        let s' := fresh "s" in
        destruct (sample _ _ l s) as [o s']
    end.

Section Draws.

Variable Seed : Type.
Variable random : R -> R -> bool -> Seed -> R * Seed.
Variable randomIndex : nat -> Seed -> nat * Seed.

Lemma sample_empty (A : Type) (s : Seed) :
  fst (sample Seed randomIndex (@nil A) s) = None.
Proof. reflexivity. Qed.

(** The durations and the delay of a generated particle are the draws for
the corresponding ranges of the configuration, and the color and image
are the samples of the palettes. *)
Lemma generated_palette (w h : R) (config : ConfettiSkiaConfig) (s : Seed) :
  let props := fst (getAnimationPropsForConfetti Seed random randomIndex w h config s) in
  (colors config = [] -> color props = None)
  /\ (images config = [] -> image props = None)
  /\ scale props = 0.9.
Proof.
  unfold getAnimationPropsForConfetti, bind, randomInRange.
  run_draws (fun (a b : R) (f : bool) (s : Seed) => I).
  destruct (colors config) as [ | c cs]; destruct (images config) as [ | i ims];
    unfold sample, bind, ret;
    repeat match goal with
      | |- context [randomIndex ?n ?s] => destruct (randomIndex n s)
      end;
    cbn; repeat split; intros; congruence.
Qed.

Hypothesis Hrandom : randomWithinBounds random.

Lemma generated_durations (w h : R) (config : ConfettiSkiaConfig) (s : Seed) :
  validRanges config ->
  let props := fst (getAnimationPropsForConfetti Seed random randomIndex w h config s) in
  fst (delayRange config) <= delay props <= snd (delayRange config)
  /\ fst (ascendingDurationRange config) <= ascendingDuration props
       <= snd (ascendingDurationRange config)
  /\ fst (hoveringDurationRange config) <= hoveringDuration props
       <= snd (hoveringDurationRange config)
  /\ fst (descendingDurationRange config) <= descendingDuration props
       <= snd (descendingDurationRange config).
Proof.
  intros (Hd & Hx & Hy & Ha & Ho & Hh & He).
  unfold getAnimationPropsForConfetti, bind, randomInRange.
  run_draws Hrandom.
  run_samples.
  cbn. repeat split; tauto.
Qed.

End Draws.

Lemma lowestRandom_within : randomWithinBounds lowestRandom.
Proof. intros lower upper floating s H. cbn. lra. Qed.

Lemma defaultConfig_valid : validRanges defaultConfig.
Proof. unfold validRanges; cbn. lra. Qed.

(** C1. The resolved configuration is the default configuration whatever
the caller passes: every property of [ConfettiSkiaConfig] is read from
[defaultConfig], and the caller's object sits under the extra property
[config].  A caller that passes [{count: 10}] gets [count = 50], where
spreading the caller's object would give 10. *)
Theorem resolvedConfig_ignores_caller :
  forall config : JsObject.object,
    readConfig (JsObject.resolvedConfig config) = Some defaultConfig
    /\ JsObject.get "config" (JsObject.resolvedConfig config)
       = Some (JsObject.VObject config)
    /\ JsObject.get "count"
         (JsObject.resolvedConfig [("count"%string, JsObject.VNum 10)])
       = Some (JsObject.VNum 50)
    /\ JsObject.get "count"
         (JsObject.resolvedConfig_spec [("count"%string, JsObject.VNum 10)])
       = Some (JsObject.VNum 10).
Proof.
  intros config. repeat split.
Qed.

(** C4, as the claim states it, fails: the malformed configuration (a
reversed ascending-duration range, both palettes empty, count 50) is
invalid, and generating a particle from it returns. *)
Lemma malformedConfig_generates :
  invalidConfig malformedConfig
  /\ generate unit lowestRandom firstIndex 400 800 malformedConfig tt
     <> Thrown InvalidConfig.
Proof.
  split.
  - unfold invalidConfig; cbn. right; right; right; left. lra.
  - unfold generate. discriminate.
Qed.

(** C4, amended. Parameter generation returns for every configuration,
whatever its ranges and palettes, and never fails with [InvalidConfig]:
the configuration is not checked.  When the color (image) palette is empty
the color (image) of the returned parameters is undefined. *)
Theorem generate_always_returns :
  forall (Seed : Type) (random : R -> R -> bool -> Seed -> R * Seed)
         (randomIndex : nat -> Seed -> nat * Seed)
         (w h : R) (config : ConfettiSkiaConfig) (s : Seed),
    generate Seed random randomIndex w h config s <> Thrown InvalidConfig
    /\ exists props : AnimationProps,
         generate Seed random randomIndex w h config s = Returned props
         /\ (colors config = [] -> color props = None)
         /\ (images config = [] -> image props = None).
Proof.
  intros Seed random randomIndex w h config s. split.
  - unfold generate. discriminate.
  - eexists. split; [reflexivity | ].
    pose proof (generated_palette Seed random randomIndex w h config s) as H.
    cbv zeta in H. tauto.
Qed.

(** What the generator guarantees for an arbitrary configuration with
ordered ranges: the three durations of a particle sum to at most
[totalDuration], the delay comes on top of that, and the trajectory ends
within [totalDuration] when the delay range is [[0, 0]]. *)
Lemma particle_trajectory_bound :
  forall (Seed : Type) (random : R -> R -> bool -> Seed -> R * Seed)
         (randomIndex : nat -> Seed -> nat * Seed),
    randomWithinBounds random ->
    forall (n : nat) (w h : R) (config : ConfettiSkiaConfig) (s : Seed),
      validRanges config ->
      Forall
        (fun props =>
           ascendingDuration props + hoveringDuration props +
           descendingDuration props <= totalDuration config
           /\ descendEnd props <= snd (delayRange config) + totalDuration config
           /\ (delayRange config = (0, 0) ->
               descendEnd props <= totalDuration config))
        (fst (confettis Seed random randomIndex n w h config s)).
Proof.
  intros Seed random randomIndex Hrandom n w h config s Hvalid.
  revert s. induction n as [ | n IH]; intros s.
  - cbn. constructor.
  - cbn [confettis]. unfold bind at 1.
    pose proof (generated_durations Seed random randomIndex Hrandom w h config s Hvalid)
      as Hgen.
    destruct (getAnimationPropsForConfetti Seed random randomIndex w h config s)
      as [props s1].
    cbv zeta in Hgen. cbn [fst] in Hgen.
    destruct Hgen as (Hd & Ha & Hh & He).
    unfold bind. specialize (IH s1).
    destruct (confettis Seed random randomIndex n w h config s1) as [ps s2].
    cbn [fst ret] in *. constructor; [ | exact IH].
    unfold totalDuration, descendEnd. repeat split; try lra.
    intros H0. rewrite H0 in Hd. cbn [fst snd] in Hd. lra.
Qed.

(** C6. With [totalDuration] the sum of the upper bounds of the ascend,
hover and descend duration ranges of the resolved configuration, every
particle that [ConfettiSkia] generates, whatever object the caller
passes and for any random source that stays within its bounds, completes
its trajectory within one loop period:
[delay + ascendingDuration + hoveringDuration + descendingDuration <=
totalDuration]. *)
Theorem confettiSkia_trajectory_within_loop :
  forall (Seed : Type) (random : R -> R -> bool -> Seed -> R * Seed)
         (randomIndex : nat -> Seed -> nat * Seed),
    randomWithinBounds random ->
    forall (caller : JsObject.object) (resolved : ConfettiSkiaConfig)
           (n : nat) (w h : R) (s : Seed),
      readConfig (JsObject.resolvedConfig caller) = Some resolved ->
      totalDuration resolved =
        snd (ascendingDurationRange resolved)
        + snd (hoveringDurationRange resolved)
        + snd (descendingDurationRange resolved)
      /\ Forall
           (fun props =>
              delay props + ascendingDuration props + hoveringDuration props
              + descendingDuration props <= totalDuration resolved)
           (fst (confettis Seed random randomIndex n w h resolved s)).
Proof.
  intros Seed random randomIndex Hrandom caller resolved n w h s Hread.
  split; [reflexivity | ].
  assert (Hdefault : readConfig (JsObject.resolvedConfig caller) = Some defaultConfig)
    by reflexivity.
  rewrite Hdefault in Hread. injection Hread as <-.
  pose proof (particle_trajectory_bound Seed random randomIndex Hrandom
                n w h defaultConfig s defaultConfig_valid) as Hall.
  eapply Forall_impl; [ | exact Hall].
  intros props (_ & _ & Hzero). apply Hzero. reflexivity.
Qed.

Lemma confettiSkia_trajectory_within_loop_witness :
  Forall
    (fun props =>
       delay props + ascendingDuration props + hoveringDuration props
       + descendingDuration props <= totalDuration defaultConfig)
    (fst (confettis unit lowestRandom firstIndex 3 400 800 defaultConfig tt)).
Proof.
  exact (proj2 (confettiSkia_trajectory_within_loop unit lowestRandom firstIndex
                  lowestRandom_within
                  [("count"%string, JsObject.VNum 10)] defaultConfig 3 400 800 tt
                  eq_refl)).
Defined.

End GeneratorClaims.

(* ================================================================== *)
(** * The phase fractions in binary64 *)
(* ================================================================== *)

Module Binary64Facts.

Import Binary64.

(** ** Special values through the operations *)

Lemma ofZ_0 : ofZ 0 = S754_zero false.
Proof. reflexivity. Qed.

Lemma ofZ_1 : ofZ 1 = S754_finite false 4503599627370496 (-52).
Proof. reflexivity. Qed.

Lemma Math_max_NaN (y : number) : Math_max NaN y = NaN.
Proof. reflexivity. Qed.

Lemma Math_min_NaN (y : number) : Math_min NaN y = NaN.
Proof. reflexivity. Qed.

Lemma sub_NaN (y : number) : sub NaN y = NaN.
Proof. reflexivity. Qed.

Lemma div_NaN (y : number) : div NaN y = NaN.
Proof. reflexivity. Qed.

Lemma mul_NaN_l (y : number) : mul NaN y = NaN.
Proof. reflexivity. Qed.

Lemma mul_NaN_r (x : number) : mul x NaN = NaN.
Proof. destruct x; reflexivity. Qed.

Lemma add_NaN_r (x : number) : add x NaN = NaN.
Proof. destruct x; reflexivity. Qed.

Lemma fastInterpolate_NaN (inputRange outputRange : number * number) :
  fastInterpolate NaN inputRange outputRange = NaN.
Proof.
  unfold fastInterpolate.
  rewrite sub_NaN, div_NaN, Math_max_NaN, Math_min_NaN, mul_NaN_l.
  apply add_NaN_r.
Qed.

(** ** Rounding never yields NaN *)

Lemma shr_1_nonneg (mrs : shr_record) :
  (0 <= shr_m mrs)%Z -> (0 <= shr_m (shr_1 mrs))%Z.
Proof. destruct mrs as [[ | [p | p | ] | p] r s]; cbn; lia. Qed.

Lemma iter_shr_1_nonneg (p : positive) :
  forall mrs, (0 <= shr_m mrs)%Z -> (0 <= shr_m (iter_pos shr_1 p mrs))%Z.
Proof.
  induction p as [p IH | p IH | ]; intros mrs H; cbn.
  - apply IH, IH, shr_1_nonneg, H.
  - apply IH, IH, H.
  - apply shr_1_nonneg, H.
Qed.

Lemma shr_fexp_nonneg (m e : Z) (l : location) :
  (0 <= m)%Z -> (0 <= shr_m (fst (shr_fexp prec emax m e l)))%Z.
Proof.
  intros H. unfold shr_fexp, shr.
  assert (H0 : (0 <= shr_m (shr_record_of_loc m l))%Z)
    by (destruct l as [ | [ | | ]]; exact H).
  destruct (fexp prec emax (Zdigits2 m + e) - e)%Z; cbn [fst]; try exact H0.
  apply iter_shr_1_nonneg, H0.
Qed.

Lemma round_nearest_even_nonneg (m : Z) (l : location) :
  (0 <= m)%Z -> (0 <= round_nearest_even m l)%Z.
Proof.
  intros H. destruct l as [ | [ | | ]]; cbn; try lia.
  destruct (Z.even m); lia.
Qed.

Lemma binary_round_aux_sign (sx : bool) (mx ex : Z) (lx : location) :
  (0 <= mx)%Z -> hasSign sx (binary_round_aux prec emax sx mx ex lx).
Proof.
  intros H. unfold binary_round_aux.
  pose proof (shr_fexp_nonneg mx ex lx H) as H1.
  destruct (shr_fexp prec emax mx ex lx) as [mrs' e']. cbn [fst] in H1.
  pose proof (shr_fexp_nonneg _ e' loc_Exact
                (round_nearest_even_nonneg _ (loc_of_shr_record mrs') H1)) as H2.
  destruct (shr_fexp prec emax _ e' loc_Exact) as [mrs'' e'']. cbn [fst] in H2.
  unfold hasSign. destruct (shr_m mrs'') as [ | m | m].
  - reflexivity.
  - destruct (e'' <=? emax - prec)%Z; reflexivity.
  - lia.
Qed.

Lemma binary_normalize_not_NaN (m e : Z) (szero : bool) :
  isNaN (binary_normalize prec emax m e szero) = false.
Proof.
  destruct m as [ | m | m]; cbn [binary_normalize]; [reflexivity | | ];
    unfold binary_round;
    destruct (shl_align _ _ _) as [mz ez];
    match goal with |- isNaN (binary_round_aux _ _ ?s ?m ?e ?l) = false =>
      pose proof (binary_round_aux_sign s m e l) as H;
      unfold hasSign in H;
      destruct (binary_round_aux prec emax s m e l); cbn [isNaN];
        try reflexivity; exfalso; apply H; lia
    end.
Qed.

Lemma sub_not_NaN (x y : number) :
  isNaN x = false -> isFinite y = true -> isNaN (sub x y) = false.
Proof.
  intros Hx Hy. unfold sub.
  destruct x as [sx | sx | | sx mx ex]; try discriminate Hx;
    destruct y as [sy | sy | | sy my ey]; try discriminate Hy;
    cbn [SFsub]; try reflexivity.
  - destruct sx, sy; reflexivity.
  - apply binary_normalize_not_NaN.
Qed.

Lemma hasSign_false_nonneg (x : number) :
  hasSign false x -> SFleb (ofZ 0) x = true.
Proof.
  rewrite ofZ_0.
  destruct x as [s | s | | s m e]; unfold hasSign; intros H; subst;
    try reflexivity.
  contradiction.
Qed.

Lemma Math_max_zero_nonneg (x : number) :
  isNaN x = false -> SFleb (ofZ 0) (Math_max x (ofZ 0)) = true.
Proof.
  rewrite ofZ_0.
  destruct x as [[ | ] | [ | ] | | [ | ] m e]; cbn; intros H;
    try reflexivity; discriminate H.
Qed.

Lemma SFdiv_core_binary_nonneg (m1 m2 : positive) (e1 e2 : Z) :
  (0 <= fst (fst (SFdiv_core_binary prec emax (Zpos m1) e1 (Zpos m2) e2)))%Z.
Proof.
  unfold SFdiv_core_binary.
  set (e' := Z.min _ _).
  set (m' := match (e1 - e2 - e')%Z with
             | Zpos _ => Z.shiftl (Zpos m1) (e1 - e2 - e')
             | Z0 => Zpos m1
             | Zneg _ => 0%Z
             end).
  assert (Hm : (0 <= m')%Z).
  { subst m'. destruct (e1 - e2 - e')%Z; try lia.
    apply Z.shiftl_nonneg. lia. }
  pose proof (Z.div_pos m' (Zpos m2) Hm ltac:(lia)) as Hq.
  unfold Z.div in Hq.
  destruct (Z.div_eucl m' (Zpos m2)) as [q r]. exact Hq.
Qed.

Lemma div_nonneg (a d : number) :
  SFleb (ofZ 0) a = true -> positiveFinite d -> SFleb (ofZ 0) (div a d) = true.
Proof.
  intros Ha (Hf & Hd). rewrite ofZ_0 in *.
  destruct d as [sd | sd | | [ | ] md ed]; try discriminate Hf; try discriminate Hd.
  destruct a as [sa | [ | ] | | [ | ] ma ea]; try discriminate Ha.
  - destruct sa; reflexivity.
  - reflexivity.
  - unfold div; cbn [SFdiv xorb].
    pose proof (SFdiv_core_binary_nonneg ma md ea ed) as Hq.
    destruct (SFdiv_core_binary prec emax (Zpos ma) ea (Zpos md) ed) as [[mz ez] lz].
    cbn [fst] in Hq.
    apply hasSign_false_nonneg, binary_round_aux_sign, Hq.
Qed.

Lemma Math_min_one_unit (x : number) :
  SFleb (ofZ 0) x = true -> inUnitInterval (Math_min x (ofZ 1)).
Proof.
  intros Hx. unfold inUnitInterval. rewrite ofZ_0, ofZ_1 in *.
  destruct x as [sx | [ | ] | | [ | ] m e]; try discriminate Hx.
  - destruct sx; repeat split.
  - repeat split.
  - unfold Math_min, SFleb.
    destruct (SFcompare (S754_finite false m e) _) as [[ | | ] | ] eqn:E;
      rewrite ?E; repeat split.
    all: unfold SFcompare in E; discriminate E.
Qed.

Lemma fraction_in_unit (elapsed d : number) :
  isNaN elapsed = false -> positiveFinite d ->
  inUnitInterval (Math_min (div (Math_max elapsed (ofZ 0)) d) (ofZ 1)).
Proof.
  intros He Hd.
  apply Math_min_one_unit, div_nonneg; [ | exact Hd].
  apply Math_max_zero_nonneg, He.
Qed.

Lemma isFinite_not_NaN (x : number) : isFinite x = true -> isNaN x = false.
Proof. destruct x; cbn; intros H; try reflexivity; discriminate H. Qed.

(** ** The fraction of a phase of duration 0

[elapsed] is the difference the source clamps with [Math.max(_, 0)]
before it divides by the duration. *)

Lemma elapsed_clamped_to_zero (elapsed : number) :
  SFleb elapsed (ofZ 0) = true -> Math_max elapsed (ofZ 0) = ofZ 0.
Proof.
  rewrite ofZ_0.
  destruct elapsed as [[ | ] | [ | ] | | [ | ] m e]; cbn;
    intros H; try reflexivity; discriminate H.
Qed.

Lemma fraction_NaN_at_zero (elapsed : number) :
  SFleb elapsed (ofZ 0) = true ->
  Math_min (div (Math_max elapsed (ofZ 0)) (ofZ 0)) (ofZ 1) = NaN.
Proof.
  intros H. rewrite (elapsed_clamped_to_zero elapsed H). reflexivity.
Qed.

Lemma fraction_one_after_zero (elapsed : number) :
  SFltb (ofZ 0) elapsed = true ->
  Math_min (div (Math_max elapsed (ofZ 0)) (ofZ 0)) (ofZ 1) = ofZ 1.
Proof.
  rewrite ofZ_0, ofZ_1.
  destruct elapsed as [[ | ] | [ | ] | | [ | ] m e]; cbn;
    intros H; try reflexivity; discriminate H.
Qed.

End Binary64Facts.

(* ================================================================== *)
(** * The claim about phase durations equal to zero *)
(* ================================================================== *)

Module DegenerateDuration.

Import Binary64 Binary64Facts.

(** C5, as the claim states it, fails: for the particle whose ascending
duration is 0, at [t = 0] the division is 0/0: the fraction of the
ascending phase is NaN, not 1, and the opacity is NaN. *)
Lemma zero_duration_gives_NaN :
  finiteTiming instantAscent (ofZ 0)
  /\ ascendingDuration instantAscent = ofZ 0
  /\ div (ascendingTime instantAscent (ofZ 0)) (ascendingDuration instantAscent)
     = NaN
  /\ ascendingPercent instantAscent (ofZ 0) = NaN
  /\ ascendingPercent instantAscent (ofZ 0) <> ofZ 1
  /\ isNaN (opacity instantAscent (ofZ 0)) = true
  /\ isFinite (opacity instantAscent (ofZ 0)) = false.
Proof.
  unfold finiteTiming.
  repeat split; try reflexivity. vm_compute. discriminate.
Qed.

(** C5, amended. For finite times and timing properties: the completion
fraction of a phase whose duration is positive is a finite number between
0 and 1, never NaN.  When the duration of a phase is 0, the fraction is 1
as soon as the time elapsed in the phase is strictly positive (the
quotient is [+Infinity], which [Math.min] saturates); while the elapsed
time is not positive, that is at every time up to the start of the
phase's window, the quotient is 0/0 and the fraction is NaN, and for the
ascending and the descending phase so is the opacity. *)
Theorem phase_fraction_by_duration :
  forall (props : AnimationProps) (t : number),
    finiteTiming props t ->
    (* positive durations *)
    (SFltb (ofZ 0) (ascendingDuration props) = true ->
       inUnitInterval (ascendingPercent props t))
    /\ (SFltb (ofZ 0) (hoveringDuration props) = true ->
       inUnitInterval (hoveringPercent props t))
    /\ (SFltb (ofZ 0) (descendingDuration props) = true ->
       inUnitInterval (descendingPercent props t))
    (* durations equal to 0 *)
    /\ (ascendingDuration props = ofZ 0 ->
       (SFltb (ofZ 0) (sub t (delay props)) = true ->
          ascendingPercent props t = ofZ 1)
       /\ (SFleb (sub t (delay props)) (ofZ 0) = true ->
          ascendingPercent props t = NaN /\ opacity props t = NaN))
    /\ (hoveringDuration props = ofZ 0 ->
       (SFltb (ofZ 0) (sub (sub t (delay props)) (ascendingDuration props)) = true ->
          hoveringPercent props t = ofZ 1)
       /\ (SFleb (sub (sub t (delay props)) (ascendingDuration props)) (ofZ 0) = true ->
          hoveringPercent props t = NaN))
    /\ (descendingDuration props = ofZ 0 ->
       (SFltb (ofZ 0)
          (sub (sub (sub t (delay props)) (ascendingDuration props))
               (hoveringDuration props)) = true ->
          descendingPercent props t = ofZ 1)
       /\ (SFleb
          (sub (sub (sub t (delay props)) (ascendingDuration props))
               (hoveringDuration props)) (ofZ 0) = true ->
          descendingPercent props t = NaN /\ opacity props t = NaN)).
Proof.
  intros props t (Ht & Hdelay & Hasc & Hhov & Hdesc).
  assert (E1 : isNaN (sub t (delay props)) = false)
    by (apply sub_not_NaN; [apply isFinite_not_NaN, Ht | exact Hdelay]).
  assert (E2 : isNaN (sub (sub t (delay props)) (ascendingDuration props)) = false)
    by (apply sub_not_NaN; [exact E1 | exact Hasc]).
  assert (E3 : isNaN (sub (sub (sub t (delay props)) (ascendingDuration props))
                          (hoveringDuration props)) = false)
    by (apply sub_not_NaN; [exact E2 | exact Hhov]).
  split; [ | split; [ | split; [ | split; [ | split]]]].
  - intros Hpos. apply fraction_in_unit; [exact E1 | split; assumption].
  - intros Hpos. apply fraction_in_unit; [exact E2 | split; assumption].
  - intros Hpos. apply fraction_in_unit; [exact E3 | split; assumption].
  - intros Hzero; split; intros Helapsed.
    + unfold ascendingPercent, ascendingTime. rewrite Hzero.
      apply fraction_one_after_zero, Helapsed.
    + assert (Hp : ascendingPercent props t = NaN).
      { unfold ascendingPercent, ascendingTime. rewrite Hzero.
        apply fraction_NaN_at_zero, Helapsed. }
      split; [exact Hp | ].
      unfold opacity, ascendingOpacity. rewrite Hp, fastInterpolate_NaN.
      apply mul_NaN_l.
  - intros Hzero; split; intros Helapsed.
    + unfold hoveringPercent, hoveringTime. rewrite Hzero.
      apply fraction_one_after_zero, Helapsed.
    + unfold hoveringPercent, hoveringTime. rewrite Hzero.
      apply fraction_NaN_at_zero, Helapsed.
  - intros Hzero; split; intros Helapsed.
    + unfold descendingPercent, descendingTime. rewrite Hzero.
      apply fraction_one_after_zero, Helapsed.
    + assert (Hp : descendingPercent props t = NaN).
      { unfold descendingPercent, descendingTime. rewrite Hzero.
        apply fraction_NaN_at_zero, Helapsed. }
      split; [exact Hp | ].
      unfold opacity, descendingOpacity. rewrite Hp, fastInterpolate_NaN.
      apply mul_NaN_r.
Qed.

Lemma phase_fraction_by_duration_witness :
  inUnitInterval (hoveringPercent instantAscent (ofZ 1))
  /\ ascendingPercent instantAscent (ofZ 1) = ofZ 1
  /\ ascendingPercent instantAscent (ofZ 0) = NaN
  /\ opacity instantAscent (ofZ 0) = NaN.
Proof.
  assert (F1 : finiteTiming instantAscent (ofZ 1))
    by (unfold finiteTiming; repeat split).
  assert (F0 : finiteTiming instantAscent (ofZ 0))
    by (unfold finiteTiming; repeat split).
  destruct (phase_fraction_by_duration instantAscent (ofZ 1) F1)
    as (_ & Hhov & _ & Hasc & _).
  destruct (phase_fraction_by_duration instantAscent (ofZ 0) F0)
    as (_ & _ & _ & Hasc0 & _).
  split; [apply Hhov; reflexivity | ].
  split; [apply (proj1 (Hasc eq_refl)); reflexivity | ].
  apply (proj2 (Hasc0 eq_refl)); reflexivity.
Defined.

End DegenerateDuration.

(* ================================================================== *)
(** * Easing and interpolation: shape of the curves *)
(* ================================================================== *)

Module EasingFacts.

Import Ideal IdealFacts.
Open Scope R_scope.

Lemma cube_monotone (x y : R) : x <= y -> x * x * x <= y * y * y.
Proof.
  intros H.
  assert (E : y * y * y - x * x * x =
              (y - x) * ((x + y / 2) * (x + y / 2) + 3 / 4 * (y * y))) by field.
  assert (0 <= (x + y / 2) * (x + y / 2)) by apply Rle_0_sqr.
  assert (0 <= y * y) by apply Rle_0_sqr.
  assert (0 <= (y - x) * ((x + y / 2) * (x + y / 2) + 3 / 4 * (y * y)))
    by (apply Rmult_le_pos; lra).
  lra.
Qed.

Lemma easeInOutCubic_low (x : R) : x < 0.5 -> easeInOutCubic x = 4 * (x * x * x).
Proof.
  intros H. unfold easeInOutCubic.
  destruct (Rlt_dec x 0.5) as [_ | Hn]; [ring | contradiction].
Qed.

Lemma easeInOutCubic_high (x : R) :
  0.5 <= x -> easeInOutCubic x = 1 - 4 * ((1 - x) * (1 - x) * (1 - x)).
Proof.
  intros H. unfold easeInOutCubic.
  destruct (Rlt_dec x 0.5) as [Hl | _]; [lra | ]. simpl. field.
Qed.

(** X1. [easeInOutCubic] is non-decreasing on the whole real line, maps 0
to 0 and 1 to 1, and therefore maps [[0, 1]] into [[0, 1]]. *)
Theorem easeInOutCubic_monotone :
  forall x y : R,
    x <= y ->
    easeInOutCubic x <= easeInOutCubic y
    /\ easeInOutCubic 0 = 0
    /\ easeInOutCubic 1 = 1
    /\ (0 <= x -> y <= 1 ->
        0 <= easeInOutCubic x /\ easeInOutCubic y <= 1).
Proof.
  assert (Hmono : forall a b, a <= b -> easeInOutCubic a <= easeInOutCubic b).
  { intros a b Hab.
    destruct (Rlt_dec a 0.5) as [Ha | Ha]; destruct (Rlt_dec b 0.5) as [Hb | Hb].
    - rewrite !easeInOutCubic_low by assumption.
      pose proof (cube_monotone a b Hab). lra.
    - rewrite easeInOutCubic_low by assumption.
      rewrite easeInOutCubic_high by lra.
      pose proof (cube_monotone a 0.5 ltac:(lra)).
      pose proof (cube_monotone (1 - b) 0.5 ltac:(lra)). lra.
    - lra.
    - rewrite !easeInOutCubic_high by lra.
      pose proof (cube_monotone (1 - b) (1 - a) ltac:(lra)). lra. }
  assert (H0 : easeInOutCubic 0 = 0) by (rewrite easeInOutCubic_low; lra).
  assert (H1 : easeInOutCubic 1 = 1) by (rewrite easeInOutCubic_high; lra).
  intros x y Hxy. split; [apply Hmono, Hxy | ].
  split; [exact H0 | split; [exact H1 | ]].
  intros Hx Hy. split.
  - rewrite <- H0. apply Hmono, Hx.
  - rewrite <- H1. apply Hmono, Hy.
Qed.

Lemma easeInOutCubic_monotone_witness :
  easeInOutCubic 0.25 <= easeInOutCubic 0.75
  /\ 0 <= easeInOutCubic 0.25 /\ easeInOutCubic 0.75 <= 1.
Proof.
  assert (H : 0.25 <= 0.75) by lra.
  destruct (easeInOutCubic_monotone 0.25 0.75 H) as (Hm & _ & _ & Hr).
  split; [exact Hm | apply Hr; lra].
Defined.

Lemma fourth_power_monotone (u v : R) : 0 <= u <= v -> u ^ 4 <= v ^ 4.
Proof. intros H. apply pow_incr, H. Qed.

(** X3. [easeOutQuart] is non-decreasing on arguments up to 1, maps 0 to
0 and 1 to 1, and maps [[0, 1]] into [[0, 1]]. *)
Theorem easeOutQuart_shape :
  forall x y : R,
    x <= y -> y <= 1 ->
    easeOutQuart x <= easeOutQuart y
    /\ easeOutQuart 0 = 0
    /\ easeOutQuart 1 = 1
    /\ (0 <= x -> 0 <= easeOutQuart x <= 1).
Proof.
  intros x y Hxy Hy. unfold easeOutQuart.
  split; [ | split; [ | split]].
  - pose proof (fourth_power_monotone (1 - y) (1 - x) ltac:(lra)). lra.
  - simpl. lra.
  - simpl. lra.
  - intros Hx.
    pose proof (fourth_power_monotone 0 (1 - x) ltac:(lra)) as Hlo.
    pose proof (fourth_power_monotone (1 - x) 1 ltac:(lra)) as Hhi.
    replace (0 ^ 4) with 0 in Hlo by (simpl; lra).
    replace (1 ^ 4) with 1 in Hhi by (simpl; lra).
    lra.
Qed.

Lemma easeOutQuart_shape_witness :
  easeOutQuart 0.25 <= easeOutQuart 0.75 /\ 0 <= easeOutQuart 0.25 <= 1.
Proof.
  assert (H : 0.25 <= 0.75) by lra.
  assert (H1 : 0.75 <= 1) by lra.
  destruct (easeOutQuart_shape 0.25 0.75 H H1) as (Hm & _ & _ & Hr).
  split; [exact Hm | apply Hr; lra].
Defined.

(** X4. [fastInterpolate] is linear inside its input range, and it is
monotone in its input: non-decreasing when [outLo <= outHi] and
non-increasing when [outHi <= outLo]. *)
Theorem fastInterpolate_linear_monotone :
  forall x y inLo inHi outLo outHi : R,
    inLo < inHi ->
    x <= y ->
    (inLo <= x <= inHi ->
     fastInterpolate x (inLo, inHi) (outLo, outHi) =
       outLo + (x - inLo) / (inHi - inLo) * (outHi - outLo))
    /\ (outLo <= outHi ->
        fastInterpolate x (inLo, inHi) (outLo, outHi)
        <= fastInterpolate y (inLo, inHi) (outLo, outHi))
    /\ (outHi <= outLo ->
        fastInterpolate y (inLo, inHi) (outLo, outHi)
        <= fastInterpolate x (inLo, inHi) (outLo, outHi)).
Proof.
  intros x y a b c d Hab Hxy.
  split; [intros Hx; apply fastInterpolate_inside; assumption | ].
  assert (Hq : (x - a) / (b - a) <= (y - a) / (b - a)).
  { unfold Rdiv. apply Rmult_le_compat_r; [ | lra].
    left. apply Rinv_0_lt_compat. lra. }
  assert (Ht : Rmin (Rmax ((x - a) / (b - a)) 0) 1
               <= Rmin (Rmax ((y - a) / (b - a)) 0) 1) by clamp_cases.
  unfold fastInterpolate; cbn [fst snd].
  split; intros Hcd; nra.
Qed.

Lemma fastInterpolate_linear_monotone_witness :
  fastInterpolate 0.5 (0.3, 0.8) (0, 1) = 0 + (0.5 - 0.3) / (0.8 - 0.3) * (1 - 0)
  /\ fastInterpolate 0.5 (0.3, 0.8) (0, 1) <= fastInterpolate 0.6 (0.3, 0.8) (0, 1).
Proof.
  assert (Hab : 0.3 < 0.8) by lra.
  assert (Hxy : 0.5 <= 0.6) by lra.
  destruct (fastInterpolate_linear_monotone 0.5 0.6 0.3 0.8 0 1 Hab Hxy)
    as (Hlin & Hup & _).
  split; [apply Hlin; lra | apply Hup; lra].
Defined.

End EasingFacts.

(* ================================================================== *)
(** * The three phases of a trajectory *)
(* ================================================================== *)

Module PhaseFacts.

Import Ideal IdealFacts EasingFacts.
Open Scope R_scope.

(** ** A clamped quotient [min(max(e, 0) / d, 1)] for [d > 0] *)

Lemma fraction_monotone (e1 e2 d : R) :
  0 < d -> e1 <= e2 ->
  Rmin (Rmax e1 0 / d) 1 <= Rmin (Rmax e2 0 / d) 1.
Proof.
  intros Hd He.
  assert (Hm : Rmax e1 0 <= Rmax e2 0) by clamp_cases.
  assert (Hq : Rmax e1 0 / d <= Rmax e2 0 / d).
  { unfold Rdiv. apply Rmult_le_compat_r; [ | exact Hm].
    left. apply Rinv_0_lt_compat, Hd. }
  set (q1 := Rmax e1 0 / d) in *. set (q2 := Rmax e2 0 / d) in *.
  clearbody q1 q2. clamp_cases.
Qed.

Lemma fraction_zero (e d : R) : e <= 0 -> Rmin (Rmax e 0 / d) 1 = 0.
Proof.
  intros He. rewrite Rmax_right by exact He.
  unfold Rdiv; rewrite Rmult_0_l. apply Rmin_left; lra.
Qed.

Lemma fraction_one (e d : R) : 0 < d -> d <= e -> Rmin (Rmax e 0 / d) 1 = 1.
Proof.
  intros Hd He. rewrite Rmax_left by lra.
  apply Rmin_right, quot_ge_1; assumption.
Qed.

Lemma fraction_linear (e d : R) :
  0 < d -> 0 <= e <= d -> Rmin (Rmax e 0 / d) 1 = e / d.
Proof.
  intros Hd He. rewrite Rmax_left by lra.
  apply Rmin_left, quot_le_1; lra.
Qed.

Lemma fraction_positive (e d : R) :
  0 < Rmin (Rmax e 0 / d) 1 -> 0 < e.
Proof.
  intros H. destruct (Rlt_dec 0 e) as [He | He]; [exact He | ].
  rewrite fraction_zero in H by lra. lra.
Qed.

Lemma fraction_range (e d : R) : 0 < d -> 0 <= Rmin (Rmax e 0 / d) 1 <= 1.
Proof.
  intros Hd.
  assert (0 <= Rmax e 0 / d) by (apply quot_nonneg; [exact Hd | apply Rmax_r]).
  set (q := Rmax e 0 / d) in *. clearbody q. clamp_cases.
Qed.



(** X6. For positive phase durations the phases follow one another: while
the hovering fraction is above 0 the ascending fraction is 1, and while
the descending fraction is above 0 the ascending and hovering fractions
are both 1.  Every fraction stays in [[0, 1]]. *)
Theorem phases_are_sequential :
  forall (props : AnimationProps) (t : R),
    positiveDurations props ->
    (0 < hoveringPercent props t -> ascendingPercent props t = 1)
    /\ (0 < descendingPercent props t ->
        ascendingPercent props t = 1 /\ hoveringPercent props t = 1)
    /\ 0 <= ascendingPercent props t <= 1
    /\ 0 <= hoveringPercent props t <= 1
    /\ 0 <= descendingPercent props t <= 1.
Proof.
  intros props t Hpos. pose proof Hpos as (Ha & Hh & Hd).
  split; [ | split; [ | split; [ | split]]].
  - intros H. apply fraction_positive in H.
    apply ascendingPercent_after; [exact Hpos | lra].
  - intros H. apply fraction_positive in H. split.
    + apply ascendingPercent_after; [exact Hpos | lra].
    + apply hoveringPercent_after; [exact Hpos | lra].
  - apply fraction_range, Ha.
  - apply fraction_range, Hh.
  - apply fraction_range, Hd.
Qed.

Lemma phases_are_sequential_witness :
  ascendingPercent (scenarioParticle 0) 1000 = 1
  /\ hoveringPercent (scenarioParticle 0) 1000 = 1.
Proof.
  assert (Hpos : positiveDurations (scenarioParticle 0))
    by (unfold positiveDurations; cbn; lra).
  destruct (phases_are_sequential (scenarioParticle 0) 1000 Hpos)
    as (_ & Hseq & _).
  apply Hseq.
  unfold descendingPercent, descendingTime; cbn.
  rewrite fraction_linear by lra. lra.
Defined.

End PhaseFacts.

(* ================================================================== *)
(** * Where the particle is *)
(* ================================================================== *)

Module PositionFacts.

Import Ideal IdealFacts EasingFacts PhaseFacts.
Open Scope R_scope.

Lemma easeInOutCubic_0 : easeInOutCubic 0 = 0.
Proof. rewrite easeInOutCubic_low; lra. Qed.

Lemma easeInOutCubic_1 : easeInOutCubic 1 = 1.
Proof. rewrite easeInOutCubic_high; lra. Qed.


Lemma hoveringT_before (props : AnimationProps) (t : R) :
  t <= delay props + ascendingDuration props -> hoveringT props t = 0.
Proof.
  intros Ht. unfold hoveringT, hoveringPercent, hoveringTime.
  rewrite fraction_zero by lra.
  unfold easeOutQuart. simpl. ring.
Qed.

Lemma hoveringT_after (props : AnimationProps) (t : R) :
  positiveDurations props ->
  delay props + ascendingDuration props + hoveringDuration props <= t ->
  hoveringT props t = 0.7.
Proof.
  intros Hpos Ht. unfold hoveringT.
  rewrite hoveringPercent_after by assumption.
  rewrite fastInterpolate_high by lra.
  unfold easeOutQuart. simpl. lra.
Qed.


Lemma descendingTime_before (props : AnimationProps) (t : R) :
  t <= delay props + ascendingDuration props + hoveringDuration props ->
  descendingTime props t = 0.
Proof. intros Ht. unfold descendingTime. apply Rmax_right. lra. Qed.

Lemma descendingX_before (props : AnimationProps) (t : R) :
  t <= delay props + ascendingDuration props + hoveringDuration props ->
  descendingX props t = sin (descendingRandomFactor props) * 10.
Proof.
  intros Ht. unfold descendingX, descendingRotateAngle.
  rewrite descendingTime_before by exact Ht.
  replace (descendingRandomFactor props +
           0 / 1000 * (2 * PI) * descendingRandomFactor props)
    with (descendingRandomFactor props) by field.
  ring.
Qed.

Lemma descendingY_before (props : AnimationProps) (t : R) :
  t <= delay props + ascendingDuration props + hoveringDuration props ->
  descendingY props t = cos (descendingRandomFactor props) * 10.
Proof.
  intros Ht. unfold descendingY, descendingRotateAngle.
  rewrite descendingTime_before by exact Ht.
  replace (descendingRandomFactor props +
           0 / 1000 * (2 * PI) * descendingRandomFactor props)
    with (descendingRandomFactor props) by field.
  ring.
Qed.

(** X7. Until its delay has elapsed a particle with positive phase
durations does not move and is invisible: its translation is the spawn
point plus the initial sway, [(startX + 10 sin f, startY + 10 cos f)] for
[f = descendingRandomFactor], its rotation is 0 and its opacity is 0. *)
Theorem particle_waits_at_spawn :
  forall (props : AnimationProps) (t : R),
    positiveDurations props ->
    t <= delay props ->
    translateX_of (style props t) =
      Some (startX props + sin (descendingRandomFactor props) * 10)
    /\ translateY_of (style props t) =
      Some (startY props + cos (descendingRandomFactor props) * 10)
    /\ rotate_of (style props t) = Some 0
    /\ opacity (style props t) = 0.
Proof.
  intros props t Hpos Ht. pose proof Hpos as (Ha & Hh & Hd).
  assert (Hasc : ascendingT props t = 0).
  { unfold ascendingT. rewrite ascendingPercent_before by exact Ht.
    apply easeInOutCubic_0. }
  cbn. repeat split.
  - f_equal. unfold ascendingX. rewrite Hasc, descendingX_before by lra. ring.
  - f_equal. unfold ascendingY, hoveringY.
    rewrite Hasc, hoveringT_before, descendingY_before by lra. ring.
  - f_equal. unfold rotate, hoveringTime. rewrite Rmax_right by lra. field.
  - unfold ascendingOpacity. rewrite ascendingPercent_before by exact Ht.
    rewrite fastInterpolate_low by lra. ring.
Qed.

Lemma particle_waits_at_spawn_witness :
  translateX_of (style (scenarioParticle 0) 0) =
    Some (startX (scenarioParticle 0)
          + sin (descendingRandomFactor (scenarioParticle 0)) * 10)
  /\ opacity (style (scenarioParticle 0) 0) = 0.
Proof.
  assert (Hpos : positiveDurations (scenarioParticle 0))
    by (unfold positiveDurations; cbn; lra).
  assert (Ht : 0 <= delay (scenarioParticle 0)) by (cbn; lra).
  destruct (particle_waits_at_spawn (scenarioParticle 0) 0 Hpos Ht)
    as (Hx & _ & _ & Ho).
  split; [exact Hx | exact Ho].
Defined.





(** X10. The descending contribution: the speed factor stays in
[[0.7, 1]] and is 1 once the descent has lasted 1000 ms; the sway moves
the particle by at most 10 around the straight fall, along x and along y;
and with a non-negative vertical speed the particle has fallen by at
least [0.7 * descendingTime * descendingSpeedY - 10]. *)
Theorem descending_contribution_bounds :
  forall (props : AnimationProps) (t : R),
    0.7 <= descendingSpeedFactor props t <= 1
    /\ (1000 <= descendingTime props t -> descendingSpeedFactor props t = 1)
    /\ 0 <= descendingTime props t
    /\ descendingTime props t * descendingSpeedX props - 10
         <= descendingX props t
         <= descendingTime props t * descendingSpeedX props + 10
    /\ descendingTime props t * descendingSpeedFactor props t
         * descendingSpeedY props - 10
         <= descendingY props t
         <= descendingTime props t * descendingSpeedFactor props t
              * descendingSpeedY props + 10
    /\ (0 <= descendingSpeedY props ->
        0.7 * descendingTime props t * descendingSpeedY props - 10
          <= descendingY props t).
Proof.
  intros props t.
  assert (Hf : 0.7 <= descendingSpeedFactor props t <= 1).
  { unfold descendingSpeedFactor.
    pose proof (fastInterpolate_between (descendingTime props t) 0 1000 0.7 1.0) as H.
    rewrite Rmin_left, Rmax_right in H by lra. lra. }
  assert (Ht : 0 <= descendingTime props t) by (unfold descendingTime; apply Rmax_r).
  pose proof (SIN_bound (descendingRotateAngle props t)) as Hs.
  pose proof (COS_bound (descendingRotateAngle props t)) as Hc.
  split; [exact Hf | split; [ | split; [exact Ht | split; [ | split]]]].
  - intros H. unfold descendingSpeedFactor.
    rewrite fastInterpolate_high by lra. lra.
  - unfold descendingX. lra.
  - unfold descendingY. lra.
  - intros Hy. unfold descendingY.
    assert (0 <= descendingTime props t * descendingSpeedY props)
      by (apply Rmult_le_pos; assumption).
    nra.
Qed.

End PositionFacts.

(* ================================================================== *)
(** * The shape of the opacity over time *)
(* ================================================================== *)

Module OpacityShape.

Import Ideal IdealFacts EasingFacts PhaseFacts.
Open Scope R_scope.

Section Shape.

Variable props : AnimationProps.
Hypothesis durations : positiveDurations props.

Lemma ascendingOpacity_monotone (t1 t2 : R) :
  t1 <= t2 -> ascendingOpacity props t1 <= ascendingOpacity props t2.
Proof.
  destruct durations as (Ha & _). intros Ht.
  assert (Hp : ascendingPercent props t1 <= ascendingPercent props t2)
    by (apply fraction_monotone; lra).
  unfold ascendingOpacity, fastInterpolate; cbn [fst snd].
  set (p1 := ascendingPercent props t1) in *.
  set (p2 := ascendingPercent props t2) in *. clearbody p1 p2.
  assert (Hq : (p1 - 0.3) / (0.8 - 0.3) <= (p2 - 0.3) / (0.8 - 0.3)) by lra.
  set (q1 := (p1 - 0.3) / (0.8 - 0.3)) in *.
  set (q2 := (p2 - 0.3) / (0.8 - 0.3)) in *. clearbody q1 q2.
  assert (Rmin (Rmax q1 0) 1 <= Rmin (Rmax q2 0) 1) by clamp_cases.
  lra.
Qed.

Lemma descendingOpacity_antitone (t1 t2 : R) :
  t1 <= t2 -> descendingOpacity props t2 <= descendingOpacity props t1.
Proof.
  destruct durations as (_ & _ & Hd). intros Ht.
  assert (Hp : descendingPercent props t1 <= descendingPercent props t2)
    by (apply fraction_monotone; lra).
  unfold descendingOpacity, fastInterpolate; cbn [fst snd].
  set (p1 := descendingPercent props t1) in *.
  set (p2 := descendingPercent props t2) in *. clearbody p1 p2.
  assert (Hq : (p1 - 0.8) / (1 - 0.8) <= (p2 - 0.8) / (1 - 0.8)) by lra.
  set (q1 := (p1 - 0.8) / (1 - 0.8)) in *.
  set (q2 := (p2 - 0.8) / (1 - 0.8)) in *. clearbody q1 q2.
  assert (Rmin (Rmax q1 0) 1 <= Rmin (Rmax q2 0) 1) by clamp_cases.
  lra.
Qed.

End Shape.

(** X11. For positive phase durations the opacity is 0 while the
ascending fraction is at most 0.3, and 1 while the ascending fraction is
at least 0.8 and the descending fraction at most 0.8; in particular the
particle is fully opaque from the moment the time elapsed since the delay
has reached [ascendingDuration] until the descending phase starts. *)
Theorem opacity_plateau :
  forall (props : AnimationProps) (t : R),
    positiveDurations props ->
    (ascendingPercent props t <= 0.3 -> opacity (style props t) = 0)
    /\ (0.8 <= ascendingPercent props t ->
        descendingPercent props t <= 0.8 ->
        opacity (style props t) = 1)
    /\ (ascendingDuration props <= t - delay props ->
        t - delay props - ascendingDuration props - hoveringDuration props <= 0 ->
        opacity (style props t) = 1).
Proof.
  intros props t Hpos. pose proof Hpos as (Ha & Hh & Hd).
  assert (Hone : 0.8 <= ascendingPercent props t ->
                 descendingPercent props t <= 0.8 ->
                 opacity (style props t) = 1).
  { intros Hlo Hhi. cbn [style opacity].
    unfold ascendingOpacity, descendingOpacity.
    rewrite fastInterpolate_high, fastInterpolate_low by lra. ring. }
  split; [ | split; [exact Hone | ]].
  - intros Ht. cbn [style opacity]. unfold ascendingOpacity.
    rewrite fastInterpolate_low by lra. ring.
  - intros Hlo Hhi. apply Hone.
    + rewrite ascendingPercent_after by (try assumption; lra). lra.
    + unfold descendingPercent, descendingTime.
      rewrite fraction_zero by lra. lra.
Qed.

Lemma opacity_plateau_witness :
  opacity (style (scenarioParticle 0) 100) = 0
  /\ opacity (style (scenarioParticle 0) 600) = 1.
Proof.
  assert (Hpos : positiveDurations (scenarioParticle 0))
    by (unfold positiveDurations; cbn; lra).
  split.
  - apply (proj1 (opacity_plateau (scenarioParticle 0) 100 Hpos)).
    unfold ascendingPercent, ascendingTime; cbn.
    rewrite fraction_linear by lra. lra.
  - apply (proj2 (proj2 (opacity_plateau (scenarioParticle 0) 600 Hpos)));
      cbn; lra.
Defined.

(** X12. For positive phase durations the opacity rises, then falls:
between two looped times [t1 <= t2] it does not decrease when the
descending fraction at [t2] is at most 0.8, and it does not increase when
the ascending fraction at [t1] is at least 0.8. *)
Theorem opacity_rises_then_falls :
  forall (props : AnimationProps) (t1 t2 : R),
    positiveDurations props ->
    t1 <= t2 ->
    (descendingPercent props t2 <= 0.8 ->
     opacity (style props t1) <= opacity (style props t2))
    /\ (0.8 <= ascendingPercent props t1 ->
        opacity (style props t2) <= opacity (style props t1)).
Proof.
  intros props t1 t2 Hpos Ht. pose proof Hpos as (Ha & Hh & Hd).
  assert (Hdm : descendingPercent props t1 <= descendingPercent props t2)
    by (apply fraction_monotone; lra).
  assert (Ham : ascendingPercent props t1 <= ascendingPercent props t2)
    by (apply fraction_monotone; lra).
  cbn [style opacity]. split.
  - intros Hhi. unfold descendingOpacity.
    rewrite !(fastInterpolate_low _ 0.8 1 1 0) by lra.
    pose proof (ascendingOpacity_monotone props Hpos t1 t2 Ht). lra.
  - intros Hlo. unfold ascendingOpacity.
    rewrite !(fastInterpolate_high _ 0.3 0.8 0 1) by lra.
    pose proof (descendingOpacity_antitone props Hpos t1 t2 Ht). lra.
Qed.

Lemma opacity_rises_then_falls_witness :
  opacity (style (scenarioParticle 0) 200) <= opacity (style (scenarioParticle 0) 300)
  /\ opacity (style (scenarioParticle 0) 2600) <= opacity (style (scenarioParticle 0) 2500).
Proof.
  assert (Hpos : positiveDurations (scenarioParticle 0))
    by (unfold positiveDurations; cbn; lra).
  split.
  - apply (proj1 (opacity_rises_then_falls (scenarioParticle 0) 200 300 Hpos
                    ltac:(lra))).
    unfold descendingPercent, descendingTime; cbn.
    rewrite fraction_zero by lra. lra.
  - apply (proj2 (opacity_rises_then_falls (scenarioParticle 0) 2500 2600 Hpos
                    ltac:(lra))).
    rewrite ascendingPercent_after by (try exact Hpos; cbn; lra). lra.
Defined.

End OpacityShape.

(* ================================================================== *)
(** * The looped time *)
(* ================================================================== *)

Module LoopFacts.

Import Ideal.
Open Scope R_scope.

Lemma truncate_nonneg (x : R) : 0 <= x -> truncate x = Int_part x.
Proof.
  intros H. unfold truncate. destruct (Rle_dec 0 x) as [_ | Hn]; [reflexivity | lra].
Qed.

Lemma Int_part_bounds (x : R) : IZR (Int_part x) <= x < IZR (Int_part x) + 1.
Proof. destruct (base_Int_part x) as (H1 & H2). lra. Qed.

Lemma Int_part_shift (x : R) (k : Z) : Int_part (x + IZR k) = (Int_part x + k)%Z.
Proof.
  symmetry. apply Int_part_spec. rewrite plus_IZR.
  pose proof (Int_part_bounds x). lra.
Qed.

Lemma Int_part_nonneg (x : R) : 0 <= x -> (0 <= Int_part x)%Z.
Proof.
  intros H. pose proof (Int_part_bounds x) as (_ & Hb).
  apply Z.lt_succ_r. apply lt_IZR. rewrite succ_IZR. lra.
Qed.

Lemma remainder_bounds (a b : R) :
  0 <= a -> 0 < b -> 0 <= remainder a b < b.
Proof.
  intros Ha Hb. unfold remainder.
  assert (Hq : 0 <= a / b) by (apply IdealFacts.quot_nonneg; assumption).
  rewrite truncate_nonneg by exact Hq.
  pose proof (Int_part_bounds (a / b)) as (H1 & H2).
  assert (E : a = a / b * b) by (field; lra).
  set (n := IZR (Int_part (a / b))) in *. set (q := a / b) in *.
  clearbody n q. subst a. nra.
Qed.

Lemma remainder_shift (a b : R) (k : Z) :
  0 <= a -> 0 < b -> (0 <= k)%Z ->
  remainder (a + IZR k * b) b = remainder a b.
Proof.
  intros Ha Hb Hk. unfold remainder.
  assert (Hq : 0 <= a / b) by (apply IdealFacts.quot_nonneg; assumption).
  assert (Hk' : 0 <= IZR k) by (apply IZR_le in Hk; exact Hk).
  replace ((a + IZR k * b) / b) with (a / b + IZR k) by (field; lra).
  rewrite !truncate_nonneg by lra.
  rewrite Int_part_shift, plus_IZR. ring.
Qed.

Lemma remainder_small (a b : R) : 0 <= a < b -> remainder a b = a.
Proof.
  intros (Ha & Hab). unfold remainder.
  assert (Hb : 0 < b) by lra.
  assert (Hq : 0 <= a / b) by (apply IdealFacts.quot_nonneg; assumption).
  assert (Hq1 : a / b < 1).
  { unfold Rdiv. pose proof (Rinv_0_lt_compat b Hb) as Hi.
    assert (E : b * / b = 1) by (apply Rinv_r; lra). nra. }
  rewrite truncate_nonneg by exact Hq.
  assert (E0 : Int_part (a / b) = 0%Z).
  { symmetry. apply Int_part_spec. lra. }
  rewrite E0. ring.
Qed.

(** X14. For a non-negative clock and a positive total duration, the
looped time lies in [[0, totalDuration)], it is the clock itself while the
clock is below the total duration, it differs from the clock by a whole
number of periods, and it is periodic: adding any whole number of periods
to the clock leaves the looped time, and so the style of every particle,
unchanged. *)
Theorem time_loops :
  forall (clock : R) (config : ConfettiSkiaConfig),
    0 <= clock ->
    0 < totalDuration config ->
    0 <= time clock config < totalDuration config
    /\ (clock < totalDuration config -> time clock config = clock)
    /\ (exists k : Z,
          (0 <= k)%Z /\ clock = time clock config + IZR k * totalDuration config)
    /\ (forall k : Z,
          (0 <= k)%Z ->
          time (clock + IZR k * totalDuration config) config = time clock config)
    /\ (forall (k : Z) (props : AnimationProps),
          (0 <= k)%Z ->
          style props (time (clock + IZR k * totalDuration config) config)
          = style props (time clock config)).
Proof.
  intros clock config Hc Ht. unfold time.
  split; [apply remainder_bounds; assumption | ].
  split; [intros H; apply remainder_small; lra | ].
  split.
  - exists (Int_part (clock / totalDuration config)). split.
    + apply Int_part_nonneg, IdealFacts.quot_nonneg; assumption.
    + unfold remainder.
      rewrite truncate_nonneg by (apply IdealFacts.quot_nonneg; assumption).
      ring.
  - split.
    + intros k Hk. apply remainder_shift; assumption.
    + intros k props Hk. rewrite remainder_shift by assumption. reflexivity.
Qed.

Lemma defaultConfig_totalDuration : totalDuration defaultConfig = 6800.
Proof. unfold totalDuration; cbn. lra. Qed.

Lemma time_loops_witness :
  0 <= time 7000 defaultConfig < totalDuration defaultConfig
  /\ time 250 defaultConfig = 250.
Proof.
  assert (Hc : 0 <= 7000) by lra.
  assert (Hc' : 0 <= 250) by lra.
  assert (Ht : 0 < totalDuration defaultConfig)
    by (rewrite defaultConfig_totalDuration; lra).
  split.
  - exact (proj1 (time_loops 7000 defaultConfig Hc Ht)).
  - apply (proj1 (proj2 (time_loops 250 defaultConfig Hc' Ht))).
    rewrite defaultConfig_totalDuration; lra.
Defined.

End LoopFacts.

(* ================================================================== *)
(** * What the generator produces *)
(* ================================================================== *)

Module GeneratorFacts.

Import Ideal IdealFacts GeneratorClaims.
Open Scope R_scope.

Section Particles.

Variable Seed : Type.
Variable random : R -> R -> bool -> Seed -> R * Seed.
Variable randomIndex : nat -> Seed -> nat * Seed.

Lemma confettis_length (n : nat) (w h : R) (config : ConfettiSkiaConfig) :
  forall s : Seed,
    List.length (fst (confettis Seed random randomIndex n w h config s)) = n.
Proof.
  induction n as [ | n IH]; intros s; [reflexivity | ].
  cbn [confettis]. unfold bind at 1.
  destruct (getAnimationPropsForConfetti Seed random randomIndex w h config s)
    as [props s1].
  unfold bind. specialize (IH s1).
  destruct (confettis Seed random randomIndex n w h config s1) as [ps s2].
  cbn in *. f_equal. exact IH.
Qed.

Lemma confettis_Forall (P : AnimationProps -> Prop) (w h : R)
    (config : ConfettiSkiaConfig) :
  (forall s, P (fst (getAnimationPropsForConfetti Seed random randomIndex w h config s))) ->
  forall (n : nat) (s : Seed),
    Forall P (fst (confettis Seed random randomIndex n w h config s)).
Proof.
  intros HP n. induction n as [ | n IH]; intros s; [constructor | ].
  cbn [confettis]. unfold bind at 1.
  specialize (HP s).
  destruct (getAnimationPropsForConfetti Seed random randomIndex w h config s)
    as [props s1].
  unfold bind. specialize (IH s1).
  destruct (confettis Seed random randomIndex n w h config s1) as [ps s2].
  cbn in *. constructor; assumption.
Qed.

Lemma sample_member (A : Type) (l : list A) (s : Seed) :
  indexWithinBounds randomIndex ->
  l <> [] ->
  exists a : A, fst (sample Seed randomIndex l s) = Some a /\ In a l.
Proof.
  intros Hindex Hl. destruct l as [ | a0 l']; [contradiction | ].
  unfold sample, bind, ret.
  pose proof (Hindex (List.length (a0 :: l')) s ltac:(cbn; lia)) as Hi.
  destruct (randomIndex (List.length (a0 :: l')) s) as [i s']. cbn [fst] in *.
  destruct (nth_error (a0 :: l') i) as [a | ] eqn:E.
  - exists a. split; [reflexivity | ]. eapply nth_error_In, E.
  - apply nth_error_None in E. lia.
Qed.

Lemma generated_from_palette (w h : R) (config : ConfettiSkiaConfig) (s : Seed) :
  indexWithinBounds randomIndex ->
  let props := fst (getAnimationPropsForConfetti Seed random randomIndex w h config s) in
  (colors config <> [] -> exists c, color props = Some c /\ In c (colors config))
  /\ (images config <> [] -> exists i, image props = Some i /\ In i (images config)).
Proof.
  intros Hindex.
  unfold getAnimationPropsForConfetti, bind, randomInRange.
  run_draws (fun (a b : R) (f : bool) (s : Seed) => I).
  match goal with |- context [sample _ _ (colors config) ?s] =>
    pose proof (fun H => sample_member _ (colors config) s Hindex H) as Hc;
    destruct (sample Seed randomIndex (colors config) s) as [c s']
  end.
  match goal with |- context [sample _ _ (images config) ?s] =>
    pose proof (fun H => sample_member _ (images config) s Hindex H) as Hi;
    destruct (sample Seed randomIndex (images config) s) as [i s'']
  end.
  cbn in *. split; assumption.
Qed.

Hypothesis Hrandom : randomWithinBounds random.

Lemma generated_fields (w h : R) (config : ConfettiSkiaConfig) (s : Seed) :
  validRanges config -> 0 <= w -> 0 <= h ->
  let props := fst (getAnimationPropsForConfetti Seed random randomIndex w h config s) in
  fst (xSpawnRange config) * w <= startX props <= snd (xSpawnRange config) * w
  /\ fst (ySpawnRange config) * h <= startY props <= snd (ySpawnRange config) * h
  /\ fst (ascendingXOffsetRange config) <= ascendingXOffset props
       <= snd (ascendingXOffsetRange config)
  /\ -0.3 * h <= ascendingYTarget props <= 0.2 * h
  /\ 2 <= hoveringAmplitude props <= 4
  /\ -0.03 <= descendingSpeedX props <= 0.03
  /\ 0.15 <= descendingSpeedY props <= 0.2
  /\ -1 <= descendingRandomFactor props <= 1
  /\ 40 <= rotationVelocity props <= 360
  /\ scale props = 0.9.
Proof.
  intros (Hd & Hx & Hy & Ha & Ho & Hh & He) Hw Hhh.
  unfold getAnimationPropsForConfetti, bind, randomInRange. cbn [fst snd].
  run_draws Hrandom.
  run_samples.
  repeat match goal with
    | H : ?a <= ?b -> _ |- _ => specialize (H ltac:(lra))
    end.
  cbn. repeat split; try lra; nra.
Qed.

End Particles.

(** X15. With a random source that stays within its bounds, a
configuration with ordered ranges and a container of non-negative size,
[n] particles are generated for [n] indices, and every one of them has
its start position inside the spawn fractions of the container, its
x-offset inside the configured range, its y-target between -0.3 and 0.2
of the container height, a hovering amplitude in [[2, 4]], a horizontal
speed in [[-0.03, 0.03]] and a vertical speed in [[0.15, 0.2]] per ms, a
random factor in [[-1, 1]], a rotation velocity in [[40, 360]], the scale
0.9, and its delay and three durations inside their configured ranges. *)
Theorem generated_particles_in_range :
  forall (Seed : Type) (random : R -> R -> bool -> Seed -> R * Seed)
         (randomIndex : nat -> Seed -> nat * Seed),
    randomWithinBounds random ->
    forall (n : nat) (w h : R) (config : ConfettiSkiaConfig) (s : Seed),
      validRanges config -> 0 <= w -> 0 <= h ->
      List.length (fst (confettis Seed random randomIndex n w h config s)) = n
      /\ Forall
           (fun props =>
              (fst (xSpawnRange config) * w <= startX props
                 <= snd (xSpawnRange config) * w
               /\ fst (ySpawnRange config) * h <= startY props
                    <= snd (ySpawnRange config) * h
               /\ fst (ascendingXOffsetRange config) <= ascendingXOffset props
                    <= snd (ascendingXOffsetRange config)
               /\ -0.3 * h <= ascendingYTarget props <= 0.2 * h
               /\ 2 <= hoveringAmplitude props <= 4
               /\ -0.03 <= descendingSpeedX props <= 0.03
               /\ 0.15 <= descendingSpeedY props <= 0.2
               /\ -1 <= descendingRandomFactor props <= 1
               /\ 40 <= rotationVelocity props <= 360
               /\ scale props = 0.9)
              /\ (fst (delayRange config) <= delay props <= snd (delayRange config)
                  /\ fst (ascendingDurationRange config) <= ascendingDuration props
                       <= snd (ascendingDurationRange config)
                  /\ fst (hoveringDurationRange config) <= hoveringDuration props
                       <= snd (hoveringDurationRange config)
                  /\ fst (descendingDurationRange config) <= descendingDuration props
                       <= snd (descendingDurationRange config)))
           (fst (confettis Seed random randomIndex n w h config s)).
Proof.
  intros Seed random randomIndex Hrandom n w h config s Hvalid Hw Hh.
  split; [apply confettis_length | ].
  apply confettis_Forall. intros s0. split.
  - exact (generated_fields Seed random randomIndex Hrandom w h config s0 Hvalid Hw Hh).
  - exact (generated_durations Seed random randomIndex Hrandom w h config s0 Hvalid).
Qed.

Lemma generated_particles_in_range_witness :
  List.length (fst (confettis unit lowestRandom firstIndex 3 400 800 defaultConfig tt))
  = 3%nat.
Proof.
  assert (Hw : 0 <= 400) by lra.
  assert (Hh : 0 <= 800) by lra.
  exact (proj1 (generated_particles_in_range unit lowestRandom firstIndex
                  lowestRandom_within 3 400 800 defaultConfig tt
                  defaultConfig_valid Hw Hh)).
Defined.

(** X16. With an index draw that stays below the length of the array,
every generated particle takes its color from the color palette and its
image from the image palette, whenever that palette is not empty. *)
Theorem generated_particles_from_palette :
  forall (Seed : Type) (random : R -> R -> bool -> Seed -> R * Seed)
         (randomIndex : nat -> Seed -> nat * Seed),
    indexWithinBounds randomIndex ->
    forall (n : nat) (w h : R) (config : ConfettiSkiaConfig) (s : Seed),
      Forall
        (fun props =>
           (colors config <> [] ->
            exists c, color props = Some c /\ In c (colors config))
           /\ (images config <> [] ->
               exists i, image props = Some i /\ In i (images config)))
        (fst (confettis Seed random randomIndex n w h config s)).
Proof.
  intros Seed random randomIndex Hindex n w h config s.
  apply confettis_Forall. intros s0.
  exact (generated_from_palette Seed random randomIndex w h config s0 Hindex).
Qed.

Lemma firstIndex_within : indexWithinBounds firstIndex.
Proof. intros n s Hn. exact Hn. Qed.

Lemma generated_particles_from_palette_witness :
  Forall
    (fun props =>
       (colors defaultConfig <> [] ->
        exists c, color props = Some c /\ In c (colors defaultConfig))
       /\ (images defaultConfig <> [] ->
           exists i, image props = Some i /\ In i (images defaultConfig)))
    (fst (confettis unit lowestRandom firstIndex 2 400 800 defaultConfig tt)).
Proof.
  exact (generated_particles_from_palette unit lowestRandom firstIndex
           firstIndex_within 2 400 800 defaultConfig tt).
Defined.

End GeneratorFacts.

(* ================================================================== *)
(** * The particles of a [ConfettiSkia] *)
(* ================================================================== *)

Module ComponentFacts.

Import Ideal IdealFacts GeneratorClaims GeneratorFacts.
Open Scope R_scope.



End ComponentFacts.

(* ================================================================== *)
(** * NaN through the fractions and the opacity, in binary64 *)
(* ================================================================== *)

Module NaNFacts.

Import Binary64 Binary64Facts.

Lemma sub_NaN_r (x : number) : sub x NaN = NaN.
Proof. destruct x; reflexivity. Qed.

Lemma fraction_of_NaN (d : number) :
  Math_min (div (Math_max NaN (ofZ 0)) d) (ofZ 1) = NaN.
Proof. reflexivity. Qed.

(** X18. When the looped time or the delay of a particle is NaN, the
three completion fractions and the opacity are NaN: nothing on the way,
neither [Math.max(_, 0)] nor [Math.min(_, 1)], turns a NaN into a
number. *)
Theorem NaN_time_gives_NaN_opacity :
  forall (props : AnimationProps) (t : number),
    t = NaN \/ delay props = NaN ->
    ascendingPercent props t = NaN
    /\ hoveringPercent props t = NaN
    /\ descendingPercent props t = NaN
    /\ opacity props t = NaN.
Proof.
  intros props t H.
  assert (E : sub t (delay props) = NaN).
  { destruct H as [-> | ->]; [apply sub_NaN | apply sub_NaN_r]. }
  assert (Ha : ascendingPercent props t = NaN).
  { unfold ascendingPercent, ascendingTime. rewrite E. apply fraction_of_NaN. }
  split; [exact Ha | split; [ | split]].
  - unfold hoveringPercent, hoveringTime. rewrite E, sub_NaN.
    apply fraction_of_NaN.
  - unfold descendingPercent, descendingTime. rewrite E, !sub_NaN.
    apply fraction_of_NaN.
  - unfold opacity, ascendingOpacity. rewrite Ha, fastInterpolate_NaN.
    apply mul_NaN_l.
Qed.

Lemma NaN_time_gives_NaN_opacity_witness :
  opacity instantAscent NaN = NaN.
Proof.
  exact (proj2 (proj2 (proj2
    (NaN_time_gives_NaN_opacity instantAscent NaN (or_introl eq_refl))))).
Defined.

End NaNFacts.

(* ================================================================== *)
(** * The fall *)
(* ================================================================== *)

Module FallFacts.

Import Ideal IdealFacts PhaseFacts PositionFacts.
Open Scope R_scope.

Lemma descendingSpeedFactor_monotone (props : AnimationProps) (t1 t2 : R) :
  descendingTime props t1 <= descendingTime props t2 ->
  descendingSpeedFactor props t1 <= descendingSpeedFactor props t2.
Proof.
  intros H. unfold descendingSpeedFactor, fastInterpolate; cbn [fst snd].
  assert (Hq : (descendingTime props t1 - 0) / (1000 - 0)
               <= (descendingTime props t2 - 0) / (1000 - 0)) by lra.
  set (q1 := (descendingTime props t1 - 0) / (1000 - 0)) in *.
  set (q2 := (descendingTime props t2 - 0) / (1000 - 0)) in *.
  clearbody q1 q2.
  assert (Rmin (Rmax q1 0) 1 <= Rmin (Rmax q2 0) 1) by clamp_cases.
  lra.
Qed.

Lemma descendingSpeedFactor_range (props : AnimationProps) (t : R) :
  0.7 <= descendingSpeedFactor props t <= 1.
Proof.
  unfold descendingSpeedFactor.
  pose proof (fastInterpolate_between (descendingTime props t) 0 1000 0.7 1.0) as H.
  rewrite Rmin_left, Rmax_right in H by lra. lra.
Qed.

(** X19. Once the hovering window is over, a particle with positive phase
durations only drifts and falls: between two looped times [t1 <= t2]
after that window its translation along x changes by
[descendingSpeedX * (t2 - t1)] up to a sway of 20, and with a
non-negative vertical speed its translation along y grows by at least
[0.7 * descendingSpeedY * (t2 - t1) - 20]. *)
Theorem particle_falls_after_hover :
  forall (props : AnimationProps) (t1 t2 : R),
    positiveDurations props ->
    delay props + ascendingDuration props + hoveringDuration props <= t1 ->
    t1 <= t2 ->
    exists x1 x2 y1 y2 : R,
      translateX_of (style props t1) = Some x1
      /\ translateX_of (style props t2) = Some x2
      /\ translateY_of (style props t1) = Some y1
      /\ translateY_of (style props t2) = Some y2
      /\ descendingSpeedX props * (t2 - t1) - 20 <= x2 - x1
           <= descendingSpeedX props * (t2 - t1) + 20
      /\ (0 <= descendingSpeedY props ->
          0.7 * descendingSpeedY props * (t2 - t1) - 20 <= y2 - y1).
Proof.
  intros props t1 t2 Hpos H1 H12. pose proof Hpos as (Ha & Hh & Hd).
  do 4 eexists. cbn.
  split; [reflexivity | split; [reflexivity | split; [reflexivity | ]]].
  split; [reflexivity | ].
  assert (HaT : forall t, t1 <= t -> ascendingT props t = 1).
  { intros t Ht. unfold ascendingT.
    rewrite ascendingPercent_after by (try exact Hpos; lra).
    apply easeInOutCubic_1. }
  assert (HhT : forall t, t1 <= t -> hoveringT props t = 0.7).
  { intros t Ht. apply hoveringT_after; [exact Hpos | lra]. }
  assert (D1 : descendingTime props t1 =
               t1 - delay props - ascendingDuration props - hoveringDuration props)
    by (apply descendingTime_after; lra).
  assert (D2 : descendingTime props t2 =
               t2 - delay props - ascendingDuration props - hoveringDuration props)
    by (apply descendingTime_after; lra).
  pose proof (SIN_bound (descendingRotateAngle props t1)) as S1.
  pose proof (SIN_bound (descendingRotateAngle props t2)) as S2.
  pose proof (COS_bound (descendingRotateAngle props t1)) as C1.
  pose proof (COS_bound (descendingRotateAngle props t2)) as C2.
  split.
  - unfold ascendingX, descendingX.
    rewrite (HaT t1), (HaT t2), D1, D2 by lra. lra.
  - intros Hy. unfold ascendingY, hoveringY, descendingY.
    rewrite (HaT t1), (HaT t2), (HhT t1), (HhT t2) by lra.
    pose proof (descendingSpeedFactor_range props t1) as F1.
    pose proof (descendingSpeedFactor_range props t2) as F2.
    pose proof (descendingSpeedFactor_monotone props t1 t2 ltac:(lra)) as Fm.
    set (f1 := descendingSpeedFactor props t1) in *.
    set (f2 := descendingSpeedFactor props t2) in *.
    set (c1 := cos (descendingRotateAngle props t1)) in *.
    set (c2 := cos (descendingRotateAngle props t2)) in *.
    set (d1 := descendingTime props t1) in *.
    set (d2 := descendingTime props t2) in *.
    assert (Hd1 : 0 <= d1) by lra.
    assert (Hdd : d2 - d1 = t2 - t1) by lra.
    assert (Hprog : 0.7 * (d2 - d1) <= d2 * f2 - d1 * f1).
    { assert (E : d2 * f2 - d1 * f1 = d2 * (f2 - f1) + f1 * (d2 - d1)) by ring.
      rewrite E.
      assert (0 <= d2 * (f2 - f1)) by (apply Rmult_le_pos; lra).
      assert (0.7 * (d2 - d1) <= f1 * (d2 - d1))
        by (apply Rmult_le_compat_r; lra).
      lra. }
    assert (Hsy : 0.7 * (d2 - d1) * descendingSpeedY props
                  <= (d2 * f2 - d1 * f1) * descendingSpeedY props)
      by (apply Rmult_le_compat_r; assumption).
    rewrite Hdd in Hsy. clearbody f1 f2 c1 c2 d1 d2. nra.
Qed.

Lemma particle_falls_after_hover_witness :
  exists x1 x2 y1 y2 : R,
    translateX_of (style (scenarioParticle 0) 1000) = Some x1
    /\ translateX_of (style (scenarioParticle 0) 2000) = Some x2
    /\ translateY_of (style (scenarioParticle 0) 1000) = Some y1
    /\ translateY_of (style (scenarioParticle 0) 2000) = Some y2
    /\ descendingSpeedX (scenarioParticle 0) * (2000 - 1000) - 20 <= x2 - x1
         <= descendingSpeedX (scenarioParticle 0) * (2000 - 1000) + 20
    /\ (0 <= descendingSpeedY (scenarioParticle 0) ->
        0.7 * descendingSpeedY (scenarioParticle 0) * (2000 - 1000) - 20 <= y2 - y1).
Proof.
  assert (Hpos : positiveDurations (scenarioParticle 0))
    by (unfold positiveDurations; cbn; lra).
  assert (H1 : delay (scenarioParticle 0) + ascendingDuration (scenarioParticle 0)
               + hoveringDuration (scenarioParticle 0) <= 1000) by (cbn; lra).
  assert (H12 : 1000 <= 2000) by lra.
  exact (particle_falls_after_hover (scenarioParticle 0) 1000 2000 Hpos H1 H12).
Defined.

End FallFacts.

(* ================================================================== *)
(** * The pose after the descent *)
(* ================================================================== *)

Module PoseAfterDescent.

Import Ideal IdealFacts PoseClaims PhaseFacts PositionFacts.
Open Scope R_scope.

(** C2, as the claim states it, fails: at two times after the end of the
descending window of the scenario particle the translation along x, the
translation along y and the rotation all differ. *)
Lemma pose_not_constant_after_descent :
  positiveDurations (scenarioParticle 0)
  /\ descendEnd (scenarioParticle 0) <= 2700
  /\ descendEnd (scenarioParticle 0) <= 2800
  /\ translateX_of (style (scenarioParticle 0) 2700) = Some 160
  /\ translateX_of (style (scenarioParticle 0) 2800) = Some 163
  /\ translateY_of (style (scenarioParticle 0) 2700) = Some 257.9
  /\ translateY_of (style (scenarioParticle 0) 2800) = Some 272.9
  /\ rotate_of (style (scenarioParticle 0) 2700)
     <> rotate_of (style (scenarioParticle 0) 2800)
  /\ style (scenarioParticle 0) 2700 <> style (scenarioParticle 0) 2800.
Proof.
  assert (Hpos : positiveDurations (scenarioParticle 0))
    by (unfold positiveDurations; cbn; lra).
  assert (HaT : forall t, 2700 <= t -> ascendingT (scenarioParticle 0) t = 1).
  { intros t Ht. unfold ascendingT.
    rewrite ascendingPercent_after by (try exact Hpos; cbn; lra).
    apply easeInOutCubic_1. }
  assert (Hangle : forall t, descendingRotateAngle (scenarioParticle 0) t = 0).
  { intros t. unfold descendingRotateAngle. cbn. ring. }
  assert (Hx : forall t, 2700 <= t ->
            translateX_of (style (scenarioParticle 0) t) =
            Some (100 + (t - 700) * (30 / 1000))).
  { intros t Ht. cbn. f_equal. unfold ascendingX, descendingX.
    rewrite HaT, Hangle, sin_0 by exact Ht.
    rewrite descendingTime_after by (cbn; lra).
    cbn. lra. }
  assert (Hy : forall t, 2700 <= t ->
            translateY_of (style (scenarioParticle 0) t) =
            Some (-50 - 3 * 0.7 + ((t - 700) * (150 / 1000) + 10))).
  { intros t Ht. cbn. f_equal.
    unfold ascendingY, hoveringY, descendingY, descendingSpeedFactor.
    rewrite HaT, Hangle, cos_0 by exact Ht.
    rewrite hoveringT_after by (try exact Hpos; cbn; lra).
    rewrite descendingTime_after by (cbn; lra).
    rewrite fastInterpolate_high by (cbn; lra).
    cbn. lra. }
  assert (Hr : forall t, 2700 <= t ->
            rotate (scenarioParticle 0) t = (t - 500) / 1000 * PI).
  { intros t Ht. unfold rotate. rewrite hoveringTime_after by (cbn; lra).
    cbn. field. }
  assert (Hne : rotate (scenarioParticle 0) 2700 <> rotate (scenarioParticle 0) 2800).
  { rewrite !Hr by lra. pose proof PI_RGT_0. lra. }
  split; [exact Hpos | ].
  split; [unfold descendEnd; cbn; lra | ].
  split; [unfold descendEnd; cbn; lra | ].
  split; [rewrite Hx by lra; f_equal; lra | ].
  split; [rewrite Hx by lra; f_equal; lra | ].
  split; [rewrite Hy by lra; f_equal; lra | ].
  split; [rewrite Hy by lra; f_equal; lra | ].
  split.
  - cbn. intros H. injection H as H. exact (Hne H).
  - intros H. apply Hne.
    apply (f_equal rotate_of) in H. cbn in H. injection H as H. exact H.
Qed.

(** C2, amended. For a particle with positive phase durations and two
looped times at or after the end of its descending window, the ascending
and hovering fractions are saturated at 1, so the scale and the ascending
and hovering contributions to the position are the same at both times,
and the opacity is 0 at each of them once the descending fraction has
reached 1.  The translation and the rotation are not constant: the time
elapsed in the descending phase is not clamped, [descendingTime = t -
delay - ascendingDuration - hoveringDuration], the translation along x
and along y is the constant part plus the descending contribution at that
time, and the rotation is [(t - delay - ascendingDuration) / 1000 *
rotationVelocity * PI / 180]. *)
Theorem pose_after_descent :
  forall (props : AnimationProps) (t1 t2 : R),
    positiveDurations props ->
    descendEnd props <= t1 ->
    descendEnd props <= t2 ->
    scale_of (style props t1) = scale_of (style props t2)
    /\ ascendingX props t1 = ascendingX props t2
    /\ ascendingY props t1 = ascendingY props t2
    /\ hoveringY props t1 = hoveringY props t2
    /\ (descendingPercent props t1 = 1 -> opacity (style props t1) = 0)
    /\ (descendingPercent props t2 = 1 -> opacity (style props t2) = 0)
    /\ descendingTime props t2 =
       t2 - delay props - ascendingDuration props - hoveringDuration props
    /\ translateX_of (style props t2) =
       Some (ascendingX props t1 + descendingX props t2)
    /\ translateY_of (style props t2) =
       Some (ascendingY props t1 + hoveringY props t1 + descendingY props t2)
    /\ rotate_of (style props t2) =
       Some ((t2 - delay props - ascendingDuration props) / 1000
             * rotationVelocity props * PI / 180).
Proof.
  intros props t1 t2 Hpos H1 H2.
  pose proof Hpos as (Ha & Hh & Hd). unfold descendEnd in H1, H2.
  assert (Hasc : forall t, t1 <= t \/ t2 <= t -> ascendingPercent props t = 1).
  { intros t Ht. apply ascendingPercent_after; [exact Hpos | lra]. }
  assert (Hhov : forall t, t1 <= t \/ t2 <= t -> hoveringPercent props t = 1).
  { intros t Ht. apply hoveringPercent_after; [exact Hpos | lra]. }
  assert (HX : ascendingX props t1 = ascendingX props t2).
  { unfold ascendingX, ascendingT. rewrite !Hasc by lra. reflexivity. }
  assert (HY : ascendingY props t1 = ascendingY props t2).
  { unfold ascendingY, ascendingT. rewrite !Hasc by lra. reflexivity. }
  assert (HH : hoveringY props t1 = hoveringY props t2).
  { unfold hoveringY, hoveringT. rewrite !Hhov by lra. reflexivity. }
  assert (Hzero : forall t, descendingPercent props t = 1 ->
                            opacity (style props t) = 0).
  { intros t Hone. cbn [style opacity]. unfold descendingOpacity.
    rewrite Hone, fastInterpolate_high by lra. ring. }
  split; [reflexivity | ].
  split; [exact HX | split; [exact HY | split; [exact HH | ]]].
  split; [apply Hzero | split; [apply Hzero | ]].
  split; [apply descendingTime_after; lra | ].
  split; [cbn; rewrite HX; reflexivity | ].
  split; [cbn; rewrite HY, HH; reflexivity | ].
  cbn. unfold rotate. rewrite hoveringTime_after by lra. reflexivity.
Qed.

Lemma pose_after_descent_witness :
  ascendingX (scenarioParticle 0) 2700 = ascendingX (scenarioParticle 0) 2800
  /\ hoveringY (scenarioParticle 0) 2700 = hoveringY (scenarioParticle 0) 2800
  /\ descendingTime (scenarioParticle 0) 2800 =
     2800 - delay (scenarioParticle 0) - ascendingDuration (scenarioParticle 0)
     - hoveringDuration (scenarioParticle 0).
Proof.
  assert (Hpos : positiveDurations (scenarioParticle 0))
    by (unfold positiveDurations; cbn; lra).
  assert (H1 : descendEnd (scenarioParticle 0) <= 2700)
    by (unfold descendEnd; cbn; lra).
  assert (H2 : descendEnd (scenarioParticle 0) <= 2800)
    by (unfold descendEnd; cbn; lra).
  destruct (pose_after_descent (scenarioParticle 0) 2700 2800 Hpos H1 H2)
    as (_ & Hx & _ & Hh & _ & _ & Hd & _).
  split; [exact Hx | split; [exact Hh | exact Hd]].
Defined.

End PoseAfterDescent.
